(** * component-finder-action: the component resolution algorithm

    A shallow embedding of the two variants of [run] found in the
    repository, and the properties of the specifier normalizer and of the
    manifest scanner:
    - [Main], the [run] of [src/main.ts]: the manifest pattern can be
      configured, and the scanner consults the raw token list;
    - [Part000], the sibling variant: the manifest pattern is the
      hidden-dotfile one, search directories are resolved against the
      repository root, and the scanner consults the normalized list.

    Conventions of the embedding:
    - a JavaScript string is a [string] whose characters are code units
      below 256;
    - the host ([@actions/core], [process.env], [process.cwd()]) is a
      record read by the run; what the run writes to the host (log lines,
      the failure signal) and each file-system call it makes are recorded,
      in order, in a trace of events;
    - paths are those of Node's [path] module on a POSIX system; the file
      system is a finite tree of directories and files (no links), read
      but never written by the run;
    - a thrown [Error] is the outcome [Throw] with its message;
    - the [yaml] parser and the [RegExp] constructor are parameters of the
      development. *)

From Stdlib Require Import Ascii String.
From stdpp Require Import base option list strings gmap.

Set Default Proof Using "Type".

(** ** JavaScript strings *)

Module JS.

(** [component.trim()]: the white space of ECMAScript among the code
    units below 256 (TAB, LF, VT, FF, CR, SP, NBSP). *)
Definition isWhiteSpace (c : ascii) : bool :=
  let n := nat_of_ascii c in
  ((9 <=? n) && (n <=? 13)) || (n =? 32) || (n =? 160).

Fixpoint trimStart (s : string) : string :=
  match s with
  | EmptyString => EmptyString
  | String c r => if isWhiteSpace c then trimStart r else s
  end.

Fixpoint trimEnd (s : string) : string :=
  match s with
  | EmptyString => EmptyString
  | String c r =>
      match trimEnd r with
      | EmptyString => if isWhiteSpace c then EmptyString else String c EmptyString
      | r' => String c r'
      end
  end.

Definition trim (s : string) : string := trimEnd (trimStart s).

(** [s.split(sep)] for a separator of one character: never empty. *)
Fixpoint split (sep : ascii) (s : string) : list string :=
  match s with
  | EmptyString => [EmptyString]
  | String c r =>
      if Ascii.eqb c sep then EmptyString :: split sep r
      else match split sep r with
           | [] => [String c EmptyString]
           | h :: t => String c h :: t
           end
  end.

(** [xs.join(sep)]. *)
Fixpoint join (sep : string) (xs : list string) : string :=
  match xs with
  | [] => ""
  | [x] => x
  | x :: rest => x +:+ sep +:+ join sep rest
  end.

(** [xs.includes(x)] on an array of strings. *)
Definition includes (xs : list string) (x : string) : bool :=
  existsb (String.eqb x) xs.

(** [s.includes(c)] for one character. *)
Fixpoint contains (c : ascii) (s : string) : bool :=
  match s with
  | EmptyString => false
  | String d r => Ascii.eqb d c || contains c r
  end.

(** [s.split(':')[0]]: defined for every string, since [split] is never
    empty. *)
Definition head_of_split (sep : ascii) (s : string) : string :=
  match split sep s with
  | h :: _ => h
  | [] => s
  end.

End JS.

(** ** Regular expressions

    The two literals of the source are written as regular expressions and
    run by derivatives. Both are anchored at both ends, so [test] is a
    match of the whole string. *)

Module Re.

Inductive re : Type :=
| Void
| Eps
| Class (p : ascii -> bool)
| Cat (r1 r2 : re)
| Alt (r1 r2 : re)
| Star (r : re).

Definition Lit (c : ascii) : re := Class (Ascii.eqb c).
Definition Plus (r : re) : re := Cat r (Star r).
Definition Opt (r : re) : re := Alt r Eps.

Fixpoint nullable (r : re) : bool :=
  match r with
  | Void => false
  | Eps => true
  | Class _ => false
  | Cat r1 r2 => nullable r1 && nullable r2
  | Alt r1 r2 => nullable r1 || nullable r2
  | Star _ => true
  end.

Fixpoint deriv (c : ascii) (r : re) : re :=
  match r with
  | Void => Void
  | Eps => Void
  | Class p => if p c then Eps else Void
  | Cat r1 r2 =>
      if nullable r1 then Alt (Cat (deriv c r1) r2) (deriv c r2)
      else Cat (deriv c r1) r2
  | Alt r1 r2 => Alt (deriv c r1) (deriv c r2)
  | Star r1 => Cat (deriv c r1) (Star r1)
  end.

Fixpoint matches (r : re) (s : string) : bool :=
  match s with
  | EmptyString => nullable r
  | String c s' => matches (deriv c r) s'
  end.

(** The language of a regular expression, to reason about [matches]. *)
Inductive lang : re -> string -> Prop :=
| lang_eps : lang Eps ""
| lang_class p c : p c = true -> lang (Class p) (String c "")
| lang_cat r1 r2 s1 s2 : lang r1 s1 -> lang r2 s2 -> lang (Cat r1 r2) (s1 +:+ s2)
| lang_alt_l r1 r2 s : lang r1 s -> lang (Alt r1 r2) s
| lang_alt_r r1 r2 s : lang r2 s -> lang (Alt r1 r2) s
| lang_star_nil r : lang (Star r) ""
| lang_star_cons r s1 s2 : lang r s1 -> lang (Star r) s2 -> lang (Star r) (s1 +:+ s2).

End Re.

(** A compiled [RegExp] object: the pattern text and the [test] method. *)
Record RegExp : Type := mkRegExp {
  source : string;
  test : string -> bool
}.

(** [[a-zA-Z0-9_\-.]] *)
Definition nameChar (c : ascii) : bool :=
  let n := nat_of_ascii c in
  ((97 <=? n) && (n <=? 122)) || ((65 <=? n) && (n <=? 90)) ||
  ((48 <=? n) && (n <=? 57)) || (n =? 95) || (n =? 45) || (n =? 46).

(** [/^[a-zA-Z0-9_\-.]+(:[a-zA-Z0-9_\-.]+)?$/] *)
Definition validComponent_re : Re.re :=
  Re.Cat (Re.Plus (Re.Class nameChar))
         (Re.Opt (Re.Cat (Re.Lit ":") (Re.Plus (Re.Class nameChar)))).

Definition validComponentRegex : RegExp :=
  {| source := "^[a-zA-Z0-9_\-.]+(:[a-zA-Z0-9_\-.]+)?$";
     test := Re.matches validComponent_re |}.

Fixpoint lits (s : string) : Re.re :=
  match s with
  | EmptyString => Re.Eps
  | String c r => Re.Cat (Re.Lit c) (lits r)
  end.

(** [component\.ya?ml] *)
Definition component_yaml_re : Re.re :=
  Re.Cat (lits "component.y") (Re.Cat (Re.Opt (Re.Lit "a")) (lits "ml")).

(** [/^component\.ya?ml$/] and [/^\.component\.ya?ml$/] *)
Definition componentFileNameRegex_plain : RegExp :=
  {| source := "^component\.ya?ml$";
     test := Re.matches component_yaml_re |}.

Definition componentFileNameRegex_hidden : RegExp :=
  {| source := "^\.component\.ya?ml$";
     test := Re.matches (Re.Cat (Re.Lit ".") component_yaml_re) |}.

(** ** Node's [path] module (POSIX flavour) *)

Module Path.

Definition isAbsolute (p : string) : bool :=
  match p with
  | String c _ => Ascii.eqb c "/"
  | EmptyString => false
  end.

(** [normalizeString(path, allowAboveRoot, '/')], on the segments between
    separators; [res] is the result so far, last segment first. *)
Fixpoint normalizeSegments (allowAboveRoot : bool) (res : list string)
    (segs : list string) : list string :=
  match segs with
  | [] => rev res
  | seg :: rest =>
      if String.eqb seg "" || String.eqb seg "." then
        normalizeSegments allowAboveRoot res rest
      else if String.eqb seg ".." then
        match res with
        | last :: res' =>
            if String.eqb last ".." then
              normalizeSegments allowAboveRoot
                (if allowAboveRoot then ".." :: res else res) rest
            else normalizeSegments allowAboveRoot res' rest
        | [] =>
            normalizeSegments allowAboveRoot
              (if allowAboveRoot then [".."] else []) rest
        end
      else normalizeSegments allowAboveRoot (seg :: res) rest
  end.

Definition normalizeString (p : string) (allowAboveRoot : bool) : string :=
  JS.join "/" (normalizeSegments allowAboveRoot [] (JS.split "/" p)).

Fixpoint endsWithSlash (p : string) : bool :=
  match p with
  | EmptyString => false
  | String c EmptyString => Ascii.eqb c "/"
  | String _ r => endsWithSlash r
  end.

Definition normalize (p : string) : string :=
  if String.eqb p "" then "."
  else
    let isAbs := isAbsolute p in
    let trailingSeparator := endsWithSlash p in
    let q := normalizeString p (negb isAbs) in
    if String.eqb q "" then
      if isAbs then "/" else if trailingSeparator then "./" else "."
    else
      let q' := if trailingSeparator then q +:+ "/" else q in
      if isAbs then "/" +:+ q' else q'.

(** [path.join(dir, file)] *)
Definition join (a b : string) : string :=
  if String.eqb a "" then
    if String.eqb b "" then "." else normalize b
  else if String.eqb b "" then normalize a
  else normalize (a +:+ "/" +:+ b).

(** The loop of [path.resolve]: arguments from the right, then the current
    directory, until an absolute prefix is found. *)
Fixpoint resolveLoop (cwd : string) (rargs : list string) (resolvedPath : string)
    : string * bool :=
  match rargs with
  | [] =>
      if String.eqb cwd "" then (resolvedPath, false)
      else (cwd +:+ "/" +:+ resolvedPath, isAbsolute cwd)
  | p :: rest =>
      if String.eqb p "" then resolveLoop cwd rest resolvedPath
      else
        let resolvedPath' := p +:+ "/" +:+ resolvedPath in
        if isAbsolute p then (resolvedPath', true)
        else resolveLoop cwd rest resolvedPath'
  end.

(** [path.resolve(...args)] in a process whose working directory is [cwd]. *)
Definition resolve (cwd : string) (args : list string) : string :=
  let '(resolvedPath, resolvedAbsolute) := resolveLoop cwd (rev args) "" in
  let q := normalizeString resolvedPath (negb resolvedAbsolute) in
  if resolvedAbsolute then "/" +:+ q
  else if String.eqb q "" then "." else q.

End Path.

(** ** The file system: a finite tree of directories and files *)

Inductive node : Type :=
| File (content : string)
| Dir (listing : dirents)
with dirents : Type :=
| dnil
| dcons (name : string) (child : node) (rest : dirents).

Scheme node_dirents_ind := Induction for node Sort Prop
  with dirents_node_ind := Induction for dirents Sort Prop.
Combined Scheme node_mutind from node_dirents_ind, dirents_node_ind.

Module Fs.

Fixpoint entry (name : string) (es : dirents) : option node :=
  match es with
  | dnil => None
  | dcons n c rest => if String.eqb n name then Some c else entry name rest
  end.

(** A position during path resolution: the node reached and the
    directories above it, nearest first. *)
Definition position : Type := list node * node.

(** Path resolution as the operating system does it, one segment at a
    time: a segment below a file fails ([ENOTDIR]), a missing entry fails
    ([ENOENT]), [..] goes to the parent (the root is its own parent). *)
Definition step (pos : position) (seg : string) : option position :=
  match snd pos with
  | File _ => None
  | Dir es =>
      if String.eqb seg "" || String.eqb seg "." then Some pos
      else if String.eqb seg ".." then
        match fst pos with
        | [] => Some pos
        | parent :: up => Some (up, parent)
        end
      else
        match entry seg es with
        | None => None
        | Some c => Some (snd pos :: fst pos, c)
        end
  end.

Fixpoint walk (pos : position) (segs : list string) : option position :=
  match segs with
  | [] => Some pos
  | seg :: rest =>
      match step pos seg with
      | None => None
      | Some pos' => walk pos' rest
      end
  end.

(** The text of a path as the process sees it. *)
Definition full (cwd p : string) : string :=
  if Path.isAbsolute p then p else cwd +:+ "/" +:+ p.

(** The node a path names, for a process whose working directory is
    [cwd]; the empty path names nothing. *)
Definition lookup (root : node) (cwd p : string) : option node :=
  if String.eqb p "" then None
  else
    match walk ([], root) (JS.split "/" (full cwd p)) with
    | Some pos => Some (snd pos)
    | None => None
    end.

(** A name a directory can list: not empty, not [.] or [..], no
    separator. *)
Definition validName (s : string) : bool :=
  negb (String.eqb s "") && negb (String.eqb s ".") &&
  negb (String.eqb s "..") && negb (JS.contains "/" s).

Fixpoint names (es : dirents) : list string :=
  match es with
  | dnil => []
  | dcons name _ rest => name :: names rest
  end.

(** Every directory lists valid names, each once. *)
Fixpoint wellFormed (n : node) : bool :=
  match n with
  | File _ => true
  | Dir es => wellFormedEntries es
  end
with wellFormedEntries (es : dirents) : bool :=
  match es with
  | dnil => true
  | dcons name child rest =>
      validName name && negb (JS.includes (names rest) name) &&
      wellFormed child && wellFormedEntries rest
  end.

End Fs.

(** ** The [yaml] package: parsed documents *)

Inductive outcome (A : Type) : Type :=
| Return (a : A)
| Throw (message : string).
Arguments Return {A} a.
Arguments Throw {A} message.

#[local] Set Warnings "-register-all".
Inductive yaml_value : Type :=
| YNull
| YString (s : string)
| YNumber (n : Z)
| YBool (b : bool)
| YSeq (items : list yaml_value)
| YMap (fields : list (string * yaml_value)).

Fixpoint field (key : string) (fields : list (string * yaml_value))
    : option yaml_value :=
  match fields with
  | [] => None
  | (k, v) :: rest => if String.eqb k key then Some v else field key rest
  end.

(** [yaml.parse(componentConfig).component]: reading a property of [null]
    throws a [TypeError]; a missing property is [undefined] ([None]). *)
Definition get_component (doc : yaml_value) : outcome (option yaml_value) :=
  match doc with
  | YNull => Throw "Cannot read properties of null (reading 'component')"
  | YMap fields => Return (field "component" fields)
  | _ => Return None
  end.

(** [name === component] for a string [name]. *)
Definition strict_equal (name : string) (component : option yaml_value) : bool :=
  match component with
  | Some (YString s) => String.eqb name s
  | _ => false
  end.

(** ** The host, the events of a run and its state *)

(** What the run reads from its environment: the action inputs
    ([process.env.INPUT_...], the empty string when unset), the repository
    root ([process.env.GITHUB_WORKSPACE]), [process.cwd()] and the file
    system. *)
Record Host : Type := mkHost {
  INPUT : string -> string;
  GITHUB_WORKSPACE : option string;
  cwd : string;
  root : node
}.

(** [core.getInput(name, { required })] of [@actions/core]. *)
Definition getInput (h : Host) (name : string) (required : bool) : outcome string :=
  let val := INPUT h name in
  if required && String.eqb val "" then
    Throw ("Input required and not supplied: " +:+ name)
  else Return (JS.trim val).

(** Calls into the host and into the file system, in program order. *)
Inductive event : Type :=
| info (message : string)
| error (message : string)
| warning (message : string)
| setFailed (message : string)
| console_log (message : string)
| existsSync (p : string)
| readdirSync (p : string)
| statSync (p : string)
| readFileSync (p : string).

Definition is_fs (e : event) : bool :=
  match e with
  | existsSync _ | readdirSync _ | statSync _ | readFileSync _ => true
  | _ => false
  end.

Definition is_setFailed (e : event) : bool :=
  match e with setFailed _ => true | _ => false end.

Definition is_warning (e : event) : bool :=
  match e with warning _ => true | _ => false end.

(** The variables of [run] that the scan mutates, and the trace. *)
Record state : Type := mkState {
  componentMap : gmap string string;
  foundComponents : list (option yaml_value);
  trace : list event
}.

Definition initial : state :=
  {| componentMap := ∅; foundComponents := []; trace := [] |}.

(** [componentMap[key] = value] on a plain object: every key becomes an own
    property except [__proto__], whose inherited setter ignores a value
    that is a string. *)
Definition set_property (key value : string) (m : gmap string string)
    : gmap string string :=
  if String.eqb key "__proto__" then m else <[key := value]> m.

(** Computations that read and write the state and may throw. *)
Definition M (A : Type) : Type := state -> outcome A * state.

Definition ret {A} (a : A) : M A := fun st => (Return a, st).

Definition bind {A B} (m : M A) (k : A -> M B) : M B :=
  fun st =>
    match m st with
    | (Return a, st') => k a st'
    | (Throw e, st') => (Throw e, st')
    end.

Definition throw {A} (e : string) : M A := fun st => (Throw e, st).

Definition lift {A} (o : outcome A) : M A := fun st => (o, st).

Definition emit (e : event) : M unit :=
  fun st =>
    (Return tt,
     {| componentMap := componentMap st;
        foundComponents := foundComponents st;
        trace := trace st ++ [e] |}).

Definition record_match (key value : string) (component : option yaml_value)
    : M unit :=
  fun st =>
    (Return tt,
     {| componentMap := set_property key value (componentMap st);
        foundComponents := foundComponents st ++ [component];
        trace := trace st |}).

Declare Scope run_scope.
Delimit Scope run_scope with run.
Notation "x <- m ;; k" := (bind m (fun x => k))
  (at level 100, m at next level, right associativity) : run_scope.
Notation "m ;; k" := (bind m (fun _ => k))
  (at level 100, right associativity) : run_scope.
Open Scope run_scope.

(** [for (const x of xs) body] *)
Fixpoint for_of {A} (xs : list A) (body : A -> M unit) : M unit :=
  match xs with
  | [] => ret tt
  | x :: rest => body x;; for_of rest body
  end.

(** ** Specifier Normalizer: step 1 of [run] (the same in both variants) *)

(** [const [name, version] = component.split(':')] and the template
    [`${name}:${version}`]; a missing element is [undefined]. *)
Definition element (xs : list string) (i : nat) : string :=
  match xs !! i with
  | Some x => x
  | None => "undefined"
  end.

Fixpoint validate (components : list string) (newComponents : list string)
    : M (list string) :=
  match components with
  | [] => ret newComponents
  | component :: rest =>
      if negb (test validComponentRegex component) then
        emit (error ("Invalid component name: " +:+ component));;
        validate rest newComponents
      else if 1 <? length (JS.split ":" component) then
        let name := element (JS.split ":" component) 0 in
        let version := element (JS.split ":" component) 1 in
        emit (console_log ("Component: " +:+ name +:+ ", Version: " +:+ version));;
        validate rest (newComponents ++ [name +:+ ":" +:+ version])
      else
        emit (console_log ("Component: " +:+ component +:+ ", Version: latest"));;
        validate rest (newComponents ++ [component +:+ ":latest"])
  end.

(** ** Manifest Scanner: the closure [searchForComponent] *)

Section Scanner.

(** [yaml.parse]: a parsed document, or the error it throws. *)
Variable yaml_parse : string -> outcome yaml_value.
Variable host : Host.
(** The sibling variant logs every entry it checks. *)
Variable logChecks : bool.
(** The pattern tested against each base name. *)
Variable fileNameRegex : RegExp.
(** The list the inner loop runs over ([components] or [newComponents]). *)
Variable wanted : list string.

(** The body of the [else if] branch: a file whose name passes the pattern. *)
Definition readManifest (filePath content : string) : M unit :=
  emit (readFileSync filePath);;
  doc <- lift (yaml_parse content);;
  component <- lift (get_component doc);;
  for_of wanted (fun neededComponent =>
    if strict_equal (JS.head_of_split ":" neededComponent) component then
      record_match neededComponent (Path.resolve (cwd host) [filePath])
        component
    else ret tt).

(** [searchForComponent(dir)] after [fs.existsSync(dir)] has answered
    true, [n] being the node at [dir]; [searchEntries] is the loop over
    [fs.readdirSync(dir)]. *)
Fixpoint searchNode (dir : string) (n : node) : M unit :=
  emit (readdirSync dir);;
  match n with
  | File _ => throw ("ENOTDIR: not a directory, scandir '" +:+ dir +:+ "'")
  | Dir files => searchEntries dir files
  end
with searchEntries (dir : string) (files : dirents) : M unit :=
  match files with
  | dnil => ret tt
  | dcons file child rest =>
      let filePath := Path.join dir file in
      emit (statSync filePath);;
      (if logChecks then emit (console_log ("Checking file: " +:+ filePath))
       else ret tt);;
      match child with
      | Dir _ => emit (existsSync filePath);; searchNode filePath child
      | File content =>
          if test fileNameRegex file then readManifest filePath content
          else ret tt
      end;;
      searchEntries dir rest
  end.

Definition searchForComponent (dir : string) : M unit :=
  emit (existsSync dir);;
  match Fs.lookup (root host) (cwd host) dir with
  | None => emit (warning ("Directory " +:+ dir +:+ " does not exist"))
  | Some n => searchNode dir n
  end.

End Scanner.

(** The last loop of [run]: one warning per name that the list given to
    [includes] does not contain. *)
Definition warnNotFound (requested : list string) : M unit :=
  for_of (map (JS.head_of_split ":") requested) (fun component =>
    if negb (JS.includes requested component) then
      emit (warning ("Component " +:+ component +:+ " not found"))
    else ret tt).

(** [if (dirs.length === 0) dirs.push(process.cwd())] *)
Definition orCwd (h : Host) (componentSearchDirectories : list string)
    : list string :=
  if length componentSearchDirectories =? 0 then
    componentSearchDirectories ++ [cwd h]
  else componentSearchDirectories.

Definition prettyDirectories (componentSearchDirectories : list string) : string :=
  if length componentSearchDirectories =? 0 then "all directories"
  else JS.join ", " componentSearchDirectories.

(** The [try] block with its [catch]: a thrown error becomes the failure
    signal. *)
Definition catch (r : outcome unit * state) : state :=
  match r with
  | (Return _, st) => st
  | (Throw message, st) => snd (emit (setFailed message) st)
  end.

Definition try_catch (body : M unit) : state := catch (body initial).

(** ** [run], as in [src/main.ts] *)

Module Main.
Section Run.

Variable yaml_parse : string -> outcome yaml_value.
(** [new RegExp(pattern)]: the compiled pattern, or the [SyntaxError]. *)
Variable RegExp_new : string -> outcome RegExp.

Definition defaultComponentFileNameRegex : RegExp := componentFileNameRegex_plain.

(** The argument of [new RegExp]: [getInput(...) || default.source]. *)
Definition patternText (configured : string) : string :=
  if String.eqb configured "" then source defaultComponentFileNameRegex
  else configured.

Definition body (h : Host) : M unit :=
  input <- lift (getInput h "components" true);;
  let components := map JS.trim (JS.split "," input) in
  directories <- lift (getInput h "component-search-directories" false);;
  let componentSearchDirectories := map JS.trim (JS.split "," directories) in
  if length components =? 0 then
    emit (setFailed "No components provided to search for.")
  else
    emit (info ("Finding components: " +:+ JS.join ", " components +:+
                " in directories: " +:+
                prettyDirectories componentSearchDirectories));;
    newComponents <- validate components [];;
    if length newComponents =? 0 then
      emit (setFailed "No valid components provided to search for.")
    else
      configured <- lift (getInput h "component-file-name-regex" false);;
      componentFileNameRegex <- lift (RegExp_new (patternText configured));;
      for_of (orCwd h componentSearchDirectories)
        (searchForComponent yaml_parse h false componentFileNameRegex components);;
      warnNotFound components.

Definition run (h : Host) : state := try_catch (body h).

End Run.
End Main.

(** ** [run], as in the sibling variant (hidden manifest files) *)

Module Part000.
Section Run.

Variable yaml_parse : string -> outcome yaml_value.

Definition defaultComponentFileNameRegex : RegExp := componentFileNameRegex_hidden.

(** The loop that rewrites [componentSearchDirectories[i]] in place. *)
Definition resolveDirectories (h : Host) (repositoryPath : string)
    (componentSearchDirectories : list string) : list string :=
  if 0 <? length componentSearchDirectories then
    map (fun searchDir =>
           if negb (Path.isAbsolute searchDir) then
             Path.resolve (cwd h) [repositoryPath; searchDir]
           else searchDir)
        componentSearchDirectories
  else componentSearchDirectories.

Definition body (h : Host) : M unit :=
  input <- lift (getInput h "components" true);;
  let components := map JS.trim (JS.split "," input) in
  directories <- lift (getInput h "component-search-directories" false);;
  let componentSearchDirectories := map JS.trim (JS.split "," directories) in
  (* [components.filter(Boolean)] and its twin: the results are dropped *)
  if length components =? 0 then
    emit (setFailed "No components provided to search for.")
  else
    match GITHUB_WORKSPACE h with
    | None => emit (setFailed "No repository path found.")
    | Some repositoryPath =>
        let componentSearchDirectories :=
          resolveDirectories h repositoryPath componentSearchDirectories in
        emit (info ("Finding components: " +:+ JS.join ", " components +:+
                    " in directories: " +:+
                    prettyDirectories componentSearchDirectories));;
        newComponents <- validate components [];;
        if length newComponents =? 0 then
          emit (setFailed "No valid components provided to search for.")
        else
          for_of (orCwd h componentSearchDirectories)
            (searchForComponent yaml_parse h true
               defaultComponentFileNameRegex newComponents);;
          warnNotFound newComponents
    end.

Definition run (h : Host) : state := try_catch (body h).

End Run.
End Part000.

(** ** The two variants side by side *)

Inductive variant : Type := main_ts | part_000.

Section Variants.

Variable yaml_parse : string -> outcome yaml_value.
Variable RegExp_new : string -> outcome RegExp.

Definition run_of (v : variant) (h : Host) : state :=
  match v with
  | main_ts => Main.run yaml_parse RegExp_new h
  | part_000 => Part000.run yaml_parse h
  end.

(** The raw tokens and the supplied search directories, as [run] splits
    and trims them. *)
Definition tokens (h : Host) : list string :=
  map JS.trim (JS.split "," (JS.trim (INPUT h "components"))).

Definition directories (h : Host) : list string :=
  map JS.trim (JS.split "," (JS.trim (INPUT h "component-search-directories"))).

(** The run gets as far as step 1: the required input is there and, in the
    variant that asks for it, so is the repository root. *)
Definition reachesValidation (v : variant) (h : Host) : bool :=
  negb (String.eqb (INPUT h "components") "") &&
  match v with
  | main_ts => true
  | part_000 => bool_decide (is_Some (GITHUB_WORKSPACE h))
  end.

(** The directories handed to [searchForComponent], in order. *)
Definition searchRoots (v : variant) (h : Host) : list string :=
  match v with
  | main_ts => orCwd h (directories h)
  | part_000 =>
      match GITHUB_WORKSPACE h with
      | Some repositoryPath =>
          orCwd h (Part000.resolveDirectories h repositoryPath (directories h))
      | None => []
      end
  end.

(** The pattern tested against base names. *)
Definition fileNameRegex_of (v : variant) (h : Host) : outcome RegExp :=
  match v with
  | main_ts =>
      RegExp_new (Main.patternText (JS.trim (INPUT h "component-file-name-regex")))
  | part_000 => Return Part000.defaultComponentFileNameRegex
  end.

End Variants.

(** The list the scanner and the last loop run over. *)
Definition wanted_of (v : variant) (newComponents : list string) (h : Host)
    : list string :=
  match v with
  | main_ts => tokens h
  | part_000 => newComponents
  end.

Definition logChecks_of (v : variant) : bool :=
  match v with main_ts => false | part_000 => true end.

(** ** The specification side

    The vocabulary of the specification, defined independently of the
    code above, against which the code is compared. *)

Module Spec.

(** The text before the first [sep] (all of [s] when there is none). *)
Fixpoint before (sep : ascii) (s : string) : string :=
  match s with
  | EmptyString => EmptyString
  | String c r => if Ascii.eqb c sep then EmptyString else String c (before sep r)
  end.

(** The text after the first [sep] (empty when there is none). *)
Fixpoint after (sep : ascii) (s : string) : string :=
  match s with
  | EmptyString => EmptyString
  | String c r => if Ascii.eqb c sep then r else after sep r
  end.

(** A token split into name and version on the first colon, the version
    defaulting to [latest]. *)
Definition name (token : string) : string := before ":" token.

Definition version (token : string) : string :=
  if JS.contains ":" token then after ":" token else "latest".

(** The canonical textual form ["name:version"]. *)
Definition canonical (token : string) : string :=
  name token +:+ ":" +:+ version token.

(** The RequestSet built from the raw [components] text. *)
Definition requestSet (raw : string) : list string :=
  map canonical
      (filter (fun token => test validComponentRegex token = true)
              (map JS.trim (JS.split "," raw))).

(** The diagnostic a token produces while it is validated. *)
Definition diagnostic (token : string) : event :=
  if test validComponentRegex token then
    console_log ("Component: " +:+ name token +:+ ", Version: " +:+ version token)
  else error ("Invalid component name: " +:+ token).

Fixpoint all_chars (p : ascii -> bool) (s : string) : bool :=
  match s with
  | EmptyString => true
  | String c r => p c && all_chars p r
  end.

(** A name or a version: a non-empty run of [[a-zA-Z0-9_\-.]]. *)
Definition word (s : string) : Prop := s <> "" /\ all_chars nameChar s = true.

(** What the scanner meets, in depth-first order, directory entries in
    listing order: the files whose base name passes the pattern, and a
    search root that turns out not to be a directory. *)
Inductive visit : Type :=
| Manifest (filePath content : string)
| NotADirectory (dir : string).

Section Traversal.

Variable yaml_parse : string -> outcome yaml_value.
Variable host : Host.
Variable fileNameRegex : RegExp.
Variable wanted : list string.

Fixpoint visitsNode (dir : string) (n : node) : list visit :=
  match n with
  | File _ => [NotADirectory dir]
  | Dir files => visitsEntries dir files
  end
with visitsEntries (dir : string) (files : dirents) : list visit :=
  match files with
  | dnil => []
  | dcons file child rest =>
      match child with
      | Dir _ => visitsNode (Path.join dir file) child
      | File content =>
          if test fileNameRegex file
          then [Manifest (Path.join dir file) content] else []
      end ++ visitsEntries dir rest
  end.

Definition visitsRoot (dir : string) : list visit :=
  match Fs.lookup (root host) (cwd host) dir with
  | None => []
  | Some n => visitsNode dir n
  end.

Definition visitsRoots (dirs : list string) : list visit :=
  flat_map visitsRoot dirs.

(** The [component] field a visit yields, or the error that ends the
    scan there. *)
Definition declared (v : visit) : outcome (option yaml_value) :=
  match v with
  | Manifest _ content =>
      match yaml_parse content with
      | Return doc => get_component doc
      | Throw e => Throw e
      end
  | NotADirectory dir =>
      Throw ("ENOTDIR: not a directory, scandir '" +:+ dir +:+ "'")
  end.

(** The manifest declares the component name [n]. *)
Definition declares (v : visit) (n : string) : Prop :=
  declared v = Return (Some (YString n)).

Definition place (v : visit) : string :=
  match v with
  | Manifest filePath _ => filePath
  | NotADirectory dir => dir
  end.

(** The absolute path of the file of a visit. *)
Definition absolutePath (v : visit) : string :=
  Path.resolve (cwd host) [place v].

(** The entries one manifest adds to the mapping: one for each wanted
    specifier whose name is the declared one. *)
Definition assign (v : visit) (component : option yaml_value)
    (m : gmap string string) : gmap string string :=
  foldl (fun m neededComponent =>
           if strict_equal (JS.head_of_split ":" neededComponent) component
           then set_property neededComponent (absolutePath v) m
           else m)
        m wanted.

(** The mapping after a sequence of visits, stopping at the first one
    that fails. *)
Fixpoint collect (vs : list visit) (m : gmap string string)
    : outcome unit * gmap string string :=
  match vs with
  | [] => (Return tt, m)
  | v :: rest =>
      match declared v with
      | Throw e => (Throw e, m)
      | Return component => collect rest (assign v component m)
      end
  end.

(** The visits that take place: up to the first that fails, included. *)
Fixpoint attempted (vs : list visit) : list visit :=
  match vs with
  | [] => []
  | v :: rest =>
      v :: match declared v with
           | Throw _ => []
           | Return _ => attempted rest
           end
  end.

Definition readOf (v : visit) : list event :=
  match v with
  | Manifest filePath _ => [readFileSync filePath]
  | NotADirectory _ => []
  end.

End Traversal.

End Spec.

Definition is_readFileSync (e : event) : bool :=
  match e with readFileSync _ => true | _ => false end.

(** The files read so far. *)
Definition reads (st : state) : list event := filter (fun e => is_readFileSync e = true) (trace st).

(** ** The vocabulary of the properties *)

Definition with_trace (st : state) (evs : list event) : state :=
  {| componentMap := componentMap st;
     foundComponents := foundComponents st;
     trace := trace st ++ evs |}.

Definition announcement (components dirs : list string) : event :=
  info ("Finding components: " +:+ JS.join ", " components +:+
        " in directories: " +:+ prettyDirectories dirs).

(** The state when step 1 ends. *)
Definition validated (h : Host) (dirs : list string) : state :=
  with_trace initial (announcement (tokens h) dirs :: map Spec.diagnostic (tokens h)).

(** The warnings of the last loop: one for each name that is not itself an
    element of the list the loop runs over. *)
Definition notFoundWarnings (requested : list string) : list event :=
  map (fun component => warning ("Component " +:+ component +:+ " not found"))
      (filter (fun component => negb (JS.includes requested component) = true)
              (map (JS.head_of_split ":") requested)).

(** An event of step 1: the announcement and the diagnostics. *)
Definition quiet (e : event) : Prop := is_fs e = false /\ is_setFailed e = false.

(** What a computation adds to the trace satisfies [P]. *)
Definition emits {A} (P : event -> Prop) (m : M A) : Prop :=
  forall st, exists evs,
    trace (snd (m st)) = trace st ++ evs /\ Forall P evs.

(** The events of a scan: warnings, console lines and file-system calls;
    with [absolute], every path handed to the file system is absolute. *)
Definition scan_event (absolute : bool) (e : event) : Prop :=
  match e with
  | warning _ | console_log _ => True
  | existsSync p | readdirSync p | statSync p | readFileSync p =>
      absolute = true -> Path.isAbsolute p = true
  | info _ | error _ | setFailed _ => False
  end.

(** Every path handed to the file system is absolute. *)
Definition fs_absolute (e : event) : Prop :=
  match e with
  | existsSync p | readdirSync p | statSync p | readFileSync p =>
      Path.isAbsolute p = true
  | _ => True
  end.

(** A computation does to the mapping, to the files read and to the
    outcome what the visits [vs] say. *)
Definition refines (yaml_parse : string -> outcome yaml_value) (host : Host)
    (wanted : list string) (m : M unit) (vs : list Spec.visit) : Prop :=
  forall st,
    fst (m st) = fst (Spec.collect yaml_parse host wanted vs (componentMap st)) /\
    componentMap (snd (m st)) = snd (Spec.collect yaml_parse host wanted vs (componentMap st)) /\
    reads (snd (m st)) = reads st ++ flat_map Spec.readOf (Spec.attempted yaml_parse vs).

(** Every entry of the mapping was written by a visit of the scan. *)
Definition justified (yaml_parse : string -> outcome yaml_value) (host : Host)
    (wanted : list string) (vs : list Spec.visit) (m : gmap string string) : Prop :=
  forall k value, m !! k = Some value ->
    k ∈ wanted /\
    exists filePath content,
      Spec.Manifest filePath content ∈ vs /\
      value = Path.resolve (cwd host) [filePath] /\
      Spec.declares yaml_parse (Spec.Manifest filePath content) (Spec.before ":" k).

(** A visit yields a [component] value (possibly none). *)
Definition usable (yaml_parse : string -> outcome yaml_value) (m : Spec.visit) : Prop :=
  exists component, Spec.declared yaml_parse m = Return component.

(** Step 2 and the last loop, from the state step 1 leaves. *)
Definition scanAndReport (yaml_parse : string -> outcome yaml_value) (v : variant) (h : Host) (r : RegExp)
    (newComponents : list string) : M unit :=
  for_of (searchRoots v h)
    (searchForComponent yaml_parse h (logChecks_of v) r (wanted_of v newComponents h));;
  warnNotFound (wanted_of v newComponents h).

(** How a [components] input that is empty or all white space ends the
    run. *)
Definition blankFailure (v : variant) (h : Host) : string :=
  if String.eqb (INPUT h "components") "" then
    "Input required and not supplied: components"
  else
    match v, GITHUB_WORKSPACE h with
    | part_000, None => "No repository path found."
    | _, _ => "No valid components provided to search for."
    end.

(** The host [h] with another [component-file-name-regex] input, and with
    another repository root. *)
Definition with_pattern (pattern : string) (h : Host) : Host :=
  {| INPUT := fun name =>
       if String.eqb name "component-file-name-regex" then pattern
       else INPUT h name;
     GITHUB_WORKSPACE := GITHUB_WORKSPACE h;
     cwd := cwd h;
     root := root h |}.

Definition with_workspace (workspace : option string) (h : Host) : Host :=
  {| INPUT := INPUT h;
     GITHUB_WORKSPACE := workspace;
     cwd := cwd h;
     root := root h |}.

(** A segment that names an entry. *)
Definition named (seg : string) : Prop := seg <> "" /\ seg <> "." /\ seg <> "..".

(** A segment of a normalized path. *)
Definition plain (seg : string) : Prop := seg <> "" /\ JS.contains "/" seg = false.

(** Every manifest of [vs] is the file at its path. *)
Definition grounded (h : Host) (vs : list Spec.visit) : Prop :=
  forall filePath content,
    Spec.Manifest filePath content ∈ vs ->
    Fs.lookup (root h) (cwd h) filePath = Some (File content).

(** An entry of the mapping is in order: its key is an element of the list
    the scanner consults; its value is an absolute path, obtained by
    resolving the path of a manifest met by the traversal; the file at the
    value is that manifest, and its [component] field is the text of the
    key before its first colon. *)
Definition entry_in_order (yaml_parse : string -> outcome yaml_value) (h : Host)
    (wanted : list string) (vs : list Spec.visit) (key value : string) : Prop :=
  key ∈ wanted /\
  Path.isAbsolute value = true /\
  exists filePath content,
    Spec.Manifest filePath content ∈ vs /\
    value = Path.resolve (cwd h) [filePath] /\
    Fs.lookup (root h) (cwd h) value = Some (File content) /\
    Spec.declares yaml_parse (Spec.Manifest filePath content) (Spec.before ":" key).

Definition mapping_in_order yaml_parse h wanted vs (st : state) : Prop :=
  forall key value,
    componentMap st !! key = Some value ->
    entry_in_order yaml_parse h wanted vs key value.

(** A computation keeps the mapping in order, whatever its outcome. *)
Definition keeps_in_order yaml_parse h wanted vs (m : M unit) : Prop :=
  forall st,
    mapping_in_order yaml_parse h wanted vs st ->
    mapping_in_order yaml_parse h wanted vs (snd (m st)).

(** ** The vocabulary of the traversal and of the scan's bookkeeping *)

Definition is_statSync (e : event) : bool :=
  match e with statSync _ => true | _ => false end.

Definition is_console_log (e : event) : bool :=
  match e with console_log _ => true | _ => false end.

(** The answer of [fs.existsSync(dir)]. *)
Definition present (h : Host) (dir : string) : bool :=
  match Fs.lookup (root h) (cwd h) dir with
  | Some _ => true
  | None => false
  end.

(** The paths of the entries below a directory, in depth-first order and,
    within a directory, in listing order: each entry, followed, when it is
    a directory, by the entries below it. *)
Fixpoint entriesNode (dir : string) (n : node) : list string :=
  match n with
  | File _ => []
  | Dir files => entriesOf dir files
  end
with entriesOf (dir : string) (files : dirents) : list string :=
  match files with
  | dnil => []
  | dcons file child rest =>
      Path.join dir file :: entriesNode (Path.join dir file) child ++
      entriesOf dir rest
  end.

Definition entriesRoot (h : Host) (dir : string) : list string :=
  match Fs.lookup (root h) (cwd h) dir with
  | None => []
  | Some n => entriesNode dir n
  end.

(** Among the events [sel] selects, a computation adds [es] to the trace
    when it returns, and a beginning of [es] when it throws. *)
Definition adds {A} (sel : event -> bool) (m : M A) (es : list event) : Prop :=
  forall st, exists evs,
    trace (snd (m st)) = trace st ++ evs /\
    filter (fun e => sel e = true) evs `prefix_of` es /\
    (forall a, fst (m st) = Return a -> filter (fun e => sel e = true) evs = es).

(** [foundComponents] and the mapping agree: the name of every key of the
    mapping has been pushed, and everything pushed is the name of an
    element of the list the scanner consults. *)
Definition found_in_order (wanted : list string) (st : state) : Prop :=
  (forall key value,
      componentMap st !! key = Some value ->
      Some (YString (JS.head_of_split ":" key)) ∈ foundComponents st) /\
  (forall component,
      component ∈ foundComponents st ->
      exists key,
        key ∈ wanted /\ component = Some (YString (JS.head_of_split ":" key))).

(** A computation keeps a property of the state, whatever its outcome. *)
Definition preserves {A} (I : state -> Prop) (m : M A) : Prop :=
  forall st, I st -> I (snd (m st)).

(** A name or a version followed by a colon and a version. *)
Definition versioned (c : string) : Prop :=
  exists n v, c = n +:+ ":" +:+ v /\ Spec.word n /\ Spec.word v.

(** ** Sample hosts

    Concrete environments on which the runs are evaluated. The answers of
    the [yaml] parser and of the [RegExp] constructor on the few texts that
    occur in them are tabulated; every other text is taken to be rejected. *)

Module Sample.

Definition yaml_parse (content : string) : outcome yaml_value :=
  if String.eqb content "component: foo" then
    Return (YMap [("component", YString "foo")])
  else if String.eqb content "component: __proto__" then
    Return (YMap [("component", YString "__proto__")])
  else if String.eqb content "name: foo" then
    Return (YMap [("name", YString "foo")])
  else if String.eqb content "" then Return YNull
  else Throw "YAMLParseError".

Definition manifest_yml : RegExp :=
  {| source := "^manifest\.yml$"; test := String.eqb "manifest.yml" |}.

Definition RegExp_new (pattern : string) : outcome RegExp :=
  if String.eqb pattern "^component\.ya?ml$" then Return componentFileNameRegex_plain
  else if String.eqb pattern "^manifest\.yml$" then Return manifest_yml
  else Throw "Invalid regular expression".

(** The action inputs [components], [component-search-directories] and
    [component-file-name-regex]. *)
Definition inputs (components dirs pattern : string) (name : string) : string :=
  if String.eqb name "components" then components
  else if String.eqb name "component-search-directories" then dirs
  else if String.eqb name "component-file-name-regex" then pattern
  else "".

(** A file system holding one directory, [/repo], with the given entries. *)
Definition disk (files : dirents) : node := Dir (dcons "repo" (Dir files) dnil).

Definition host (components dirs pattern : string) (workspace : option string)
    (files : dirents) : Host :=
  {| INPUT := inputs components dirs pattern;
     GITHUB_WORKSPACE := workspace;
     cwd := "/repo";
     root := disk files |}.

(** Two directories, each with a manifest of either spelling that declares
    the component [name]. *)
Definition two_manifests (name : string) : dirents :=
  dcons "a" (Dir (dcons "component.yml" (File ("component: " +:+ name))
             (dcons ".component.yml" (File ("component: " +:+ name)) dnil)))
 (dcons "b" (Dir (dcons "component.yaml" (File ("component: " +:+ name))
             (dcons ".component.yaml" (File ("component: " +:+ name)) dnil)))
  dnil).

(** One manifest of either spelling that declares [foo]. *)
Definition one_manifest : dirents :=
  dcons "component.yml" (File "component: foo")
 (dcons ".component.yml" (File "component: foo") dnil).

(** The hosts of the examples. *)

(** Only white space for [components], and no repository root. *)
Definition blank_no_workspace : Host := host " " "" "" None dnil.

(** Only white space for [components], with a repository root. *)
Definition blank : Host := host " " "" "" (Some "/repo") dnil.

(** [foo] requested; [/repo] holds one manifest of either spelling. *)
Definition found_foo : Host := host "foo" "/repo" "" (Some "/repo") one_manifest.

(** [foo] requested; [/repo] is empty. *)
Definition missing_foo : Host := host "foo" "/repo" "" (Some "/repo") dnil.

(** [foo] requested; [/repo/a] and [/repo/b] both declare it. *)
Definition two_foo : Host := host "foo" "/repo" "" (Some "/repo") (two_manifests "foo").

(** [__proto__] requested; [/repo/a] and [/repo/b] both declare it. *)
Definition two_proto : Host :=
  host "__proto__" "/repo" "" (Some "/repo") (two_manifests "__proto__").

(** A configured pattern; [/repo] holds a file it selects and a hidden
    manifest it does not select. *)
Definition configured : Host :=
  host "foo" "/repo" "^manifest\.yml$" (Some "/repo")
    (dcons "manifest.yml" (File "component: foo")
    (dcons ".component.yml" (File "component: foo") dnil)).

(** Manifests of either spelling without a [component] field, then a
    directory with manifests that declare [foo]. *)
Definition no_field : Host :=
  host "foo" "/repo" "" (Some "/repo")
    (dcons "component.yml" (File "name: foo")
    (dcons ".component.yml" (File "name: foo")
    (dcons "sub" (Dir one_manifest) dnil))).

(** Malformed manifests of either spelling, then a directory with manifests
    that declare [foo]. *)
Definition malformed : Host :=
  host "foo" "/repo" "" (Some "/repo")
    (dcons "component.yml" (File "component: [")
    (dcons ".component.yml" (File "component: [")
    (dcons "sub" (Dir one_manifest) dnil))).

(** A relative search directory. *)
Definition relative : Host :=
  host "foo" "sub" "" (Some "/repo") (dcons "sub" (Dir one_manifest) dnil).

(** A relative search directory and no repository root. *)
Definition relative_no_workspace : Host :=
  host "foo" "sub" "" None (dcons "sub" (Dir one_manifest) dnil).

(** A token that fails the pattern. *)
Definition bad_name : Host := host "bad name!" "" "" (Some "/repo") one_manifest.

(** A search directory that does not exist, then [/repo]. *)
Definition missing_root : Host :=
  host "foo" "/nowhere,/repo" "" (Some "/repo") one_manifest.

(** No search directory given. *)
Definition no_directories : Host := host "foo" "" "" (Some "/repo") one_manifest.

(** A configured pattern that does not compile. *)
Definition bad_pattern : Host := host "foo" "/repo" "(" (Some "/repo") one_manifest.

(** Two versions of [foo] requested. *)
Definition two_versions : Host :=
  host "foo:1,foo:2" "/repo" "" (Some "/repo") one_manifest.

End Sample.

(** * Properties *)

(** ** Strings *)

#[local] Arguments String.append !s1 s2 : simpl nomatch.

Lemma append_nil_r (s : string) : s +:+ "" = s.
Proof. induction s as [|c s IH]; simpl; [done | by rewrite IH]. Qed.

Lemma append_assoc (s1 s2 s3 : string) : (s1 +:+ s2) +:+ s3 = s1 +:+ (s2 +:+ s3).
Proof. induction s1 as [|c s1 IH]; simpl; [done | by rewrite IH]. Qed.

Lemma append_eq_nil (s1 s2 : string) : s1 +:+ s2 = "" -> s1 = "" /\ s2 = "".
Proof. destruct s1; simpl; [done | discriminate]. Qed.

Lemma append_eq_cons (s1 s2 : string) c s :
  s1 +:+ s2 = String c s ->
  (s1 = "" /\ s2 = String c s) \/ (exists s1', s1 = String c s1' /\ s = s1' +:+ s2).
Proof.
  destruct s1 as [|d s1]; simpl; intros H.
  - by left.
  - right. injection H as -> <-. by exists s1.
Qed.

Lemma split_not_nil sep s : JS.split sep s <> [].
Proof.
  destruct s as [|c r]; simpl; [done |].
  destruct (Ascii.eqb c sep); [done |]. by destruct (JS.split sep r).
Qed.

Lemma split_length_pos sep s : 1 <= length (JS.split sep s).
Proof.
  pose proof (split_not_nil sep s) as H.
  destruct (JS.split sep s); [done | simpl; lia].
Qed.

Lemma split_head sep s : JS.head_of_split sep s = Spec.before sep s.
Proof.
  unfold JS.head_of_split. induction s as [|c r IH]; simpl; [done |].
  destruct (Ascii.eqb c sep); [done |].
  pose proof (split_not_nil sep r) as Hne.
  destruct (JS.split sep r) as [|h t]; [done |]. by rewrite IH.
Qed.

Lemma split_no_sep sep s : JS.contains sep s = false -> JS.split sep s = [s].
Proof.
  induction s as [|c r IH]; simpl; [done |].
  destruct (Ascii.eqb c sep); simpl; [discriminate |].
  intros H. by rewrite (IH H).
Qed.

Lemma split_append sep s1 s2 :
  JS.contains sep s1 = false ->
  JS.split sep (s1 +:+ String sep s2) = s1 :: JS.split sep s2.
Proof.
  induction s1 as [|c r IH]; simpl.
  - intros _. by rewrite Ascii.eqb_refl.
  - destruct (Ascii.eqb c sep); simpl; [discriminate |].
    intros H. by rewrite (IH H).
Qed.

Lemma contains_append sep s1 s2 :
  JS.contains sep (s1 +:+ s2) = JS.contains sep s1 || JS.contains sep s2.
Proof.
  induction s1 as [|c r IH]; simpl; [done |]. rewrite IH. by rewrite orb_assoc.
Qed.

Lemma before_append sep s1 s2 :
  JS.contains sep s1 = false -> Spec.before sep (s1 +:+ String sep s2) = s1.
Proof.
  induction s1 as [|c r IH]; simpl.
  - by rewrite Ascii.eqb_refl.
  - destruct (Ascii.eqb c sep); simpl; [discriminate |]. intros H. by rewrite IH.
Qed.

Lemma after_append sep s1 s2 :
  JS.contains sep s1 = false -> Spec.after sep (s1 +:+ String sep s2) = s2.
Proof.
  induction s1 as [|c r IH]; simpl.
  - by rewrite Ascii.eqb_refl.
  - destruct (Ascii.eqb c sep); simpl; [discriminate |]. intros H. by rewrite IH.
Qed.

Lemma before_no_sep sep s : JS.contains sep s = false -> Spec.before sep s = s.
Proof.
  induction s as [|c r IH]; simpl; [done |].
  destruct (Ascii.eqb c sep); simpl; [discriminate |]. intros H. by rewrite IH.
Qed.

Lemma before_contains sep s : JS.contains sep (Spec.before sep s) = false.
Proof.
  induction s as [|c r IH]; simpl; [done |].
  destruct (Ascii.eqb c sep) eqn:E; simpl; [done |]. by rewrite E.
Qed.

(** ** Regular expressions: [matches] decides the language *)

Module ReFacts.
Import Re.

Lemma nullable_lang r : nullable r = true <-> lang r "".
Proof.
  split.
  - induction r; simpl; intros H; try discriminate.
    + constructor.
    + apply andb_true_iff in H as [H1 H2].
      change (lang (Cat r1 r2) ("" +:+ "")). constructor; auto.
    + apply orb_true_iff in H as [H|H]; [apply lang_alt_l | apply lang_alt_r]; auto.
    + constructor.
  - intros H. remember EmptyString as s eqn:Es.
    induction H; simpl; try done.
    + apply append_eq_nil in Es as [-> ->]. rewrite IHlang1, IHlang2; done.
    + rewrite IHlang; done.
    + rewrite IHlang; [apply orb_true_r | done].
Qed.

Lemma lang_deriv c r s : lang (deriv c r) s -> lang r (String c s).
Proof.
  revert s. induction r; simpl; intros s H.
  - inversion H.
  - inversion H.
  - destruct (p c) eqn:E; inversion H; subst. by constructor.
  - destruct (nullable r1) eqn:N.
    + inversion H as [| | | ? ? ? H1 | ? ? ? H1 | |]; subst.
      * inversion H1; subst.
        change (lang (Cat r1 r2) (String c s1 +:+ s2)). constructor; auto.
      * change (lang (Cat r1 r2) ("" +:+ String c s)).
        constructor; [by apply nullable_lang | auto].
    + inversion H; subst.
      change (lang (Cat r1 r2) (String c s1 +:+ s2)). constructor; auto.
  - inversion H; subst; [apply lang_alt_l | apply lang_alt_r]; auto.
  - inversion H; subst.
    change (lang (Star r) (String c s1 +:+ s2)). constructor; auto.
Qed.

Lemma deriv_lang c r w : lang r w -> forall s, w = String c s -> lang (deriv c r) s.
Proof.
  induction 1 as [| p d Hp | r1 r2 s1 s2 H1 IH1 H2 IH2 | r1 r2 s0 H1 IH1
                 | r1 r2 s0 H1 IH1 | r | r s1 s2 H1 IH1 H2 IH2];
    intros s E; simpl.
  - discriminate.
  - injection E as -> <-. rewrite Hp. constructor.
  - apply append_eq_cons in E as [[-> ->] | (s1' & -> & ->)].
    + apply nullable_lang in H1. rewrite H1. apply lang_alt_r. by apply IH2.
    + destruct (nullable r1).
      * apply lang_alt_l. constructor; [by apply IH1 | done].
      * constructor; [by apply IH1 | done].
  - apply lang_alt_l. by apply IH1.
  - apply lang_alt_r. by apply IH1.
  - discriminate.
  - apply append_eq_cons in E as [[-> ->] | (s1' & -> & ->)].
    + by apply IH2.
    + constructor; [by apply IH1 | done].
Qed.

Lemma matches_lang r s : matches r s = true <-> lang r s.
Proof.
  revert r. induction s as [|c s IH]; intros r; simpl.
  - apply nullable_lang.
  - rewrite IH. split; [apply lang_deriv | intros H; by eapply deriv_lang].
Qed.

Lemma lang_cat_inv r1 r2 s :
  lang (Cat r1 r2) s -> exists s1 s2, s = s1 +:+ s2 /\ lang r1 s1 /\ lang r2 s2.
Proof. inversion 1; subst. eauto. Qed.

Lemma lang_alt_inv r1 r2 s : lang (Alt r1 r2) s -> lang r1 s \/ lang r2 s.
Proof. inversion 1; subst; auto. Qed.

Lemma lang_eps_inv s : lang Eps s -> s = "".
Proof. by inversion 1. Qed.

Lemma lang_void_inv s : ~ lang Void s.
Proof. inversion 1. Qed.

Lemma lang_class_inv p s : lang (Class p) s -> exists c, s = String c "" /\ p c = true.
Proof. inversion 1; subst. eauto. Qed.

Lemma lang_star_class p s : lang (Star (Class p)) s <-> Spec.all_chars p s = true.
Proof.
  split.
  - intros H. remember (Star (Class p)) as r eqn:Er.
    induction H; try discriminate; [done |].
    injection Er as ->. apply lang_class_inv in H as (c & -> & Hc).
    simpl. rewrite Hc. by apply IHlang2.
  - induction s as [|c s IH]; simpl; intros H; [constructor |].
    apply andb_true_iff in H as [Hc Hs].
    change (lang (Star (Class p)) (String c "" +:+ s)).
    constructor; [by constructor | auto].
Qed.

Lemma lang_plus_class p s :
  lang (Plus (Class p)) s <-> s <> "" /\ Spec.all_chars p s = true.
Proof.
  unfold Plus. split.
  - inversion 1 as [| | ? ? s1 s2 H1 H2 | | | |]; subst.
    apply lang_class_inv in H1 as (c & -> & Hc). apply lang_star_class in H2.
    simpl. by rewrite Hc, H2.
  - intros [Hne H]. destruct s as [|c s]; [done |]. simpl in H.
    apply andb_true_iff in H as [Hc Hs].
    change (lang (Cat (Class p) (Star (Class p))) (String c "" +:+ s)).
    constructor; [by constructor | by apply lang_star_class].
Qed.

Lemma lang_lit c s : lang (Lit c) s <-> s = String c "".
Proof.
  unfold Lit. split.
  - intros H. apply lang_class_inv in H as (d & -> & Hd).
    apply Ascii.eqb_eq in Hd. by subst.
  - intros ->. constructor. apply Ascii.eqb_refl.
Qed.

Lemma lang_lits w s : lang (lits w) s <-> s = w.
Proof.
  revert s. induction w as [|c w IH]; intros s; simpl.
  - split; [by inversion 1 | intros ->; constructor].
  - split.
    + inversion 1 as [| | ? ? s1 s2 H1 H2 | | | |]; subst.
      apply lang_lit in H1 as ->. apply IH in H2 as ->. done.
    + intros ->. change (lang (Cat (Lit c) (lits w)) (String c "" +:+ w)).
      constructor; [by apply lang_lit | by apply IH].
Qed.

End ReFacts.

(** ** The validation pattern *)

Lemma nameChar_not_colon c : nameChar c = true -> Ascii.eqb c ":" = false.
Proof.
  intros H. destruct (Ascii.eqb_spec c ":") as [-> |]; [| done].
  vm_compute in H. discriminate.
Qed.

Lemma word_no_colon s : Spec.all_chars nameChar s = true -> JS.contains ":" s = false.
Proof.
  induction s as [|c s IH]; simpl; [done |].
  intros H. apply andb_true_iff in H as [Hc Hs].
  by rewrite (nameChar_not_colon c Hc), (IH Hs).
Qed.

(** The tokens the pattern accepts: a name, or a name, a colon and a
    version. *)
Lemma valid_iff token :
  test validComponentRegex token = true <->
  Spec.word token \/
  exists n v, token = n +:+ String ":" v /\ Spec.word n /\ Spec.word v.
Proof.
  simpl. rewrite ReFacts.matches_lang. unfold validComponent_re, Re.Opt. split.
  - inversion 1 as [| | ? ? s1 s2 H1 H2 | | | |]; subst.
    apply ReFacts.lang_plus_class in H1.
    inversion H2 as [| | | ? ? ? H3 | ? ? ? H3 | |]; subst.
    + inversion H3 as [| | ? ? s3 s4 H4 H5 | | | |]; subst.
      apply ReFacts.lang_lit in H4 as ->. apply ReFacts.lang_plus_class in H5.
      right. by exists s1, s4.
    + inversion H3; subst. left. by rewrite append_nil_r.
  - intros [Hw | (n & v & -> & Hn & Hv)].
    + rewrite <- (append_nil_r token). constructor.
      * by apply ReFacts.lang_plus_class.
      * apply Re.lang_alt_r. constructor.
    + constructor; [by apply ReFacts.lang_plus_class |].
      apply Re.lang_alt_l.
      change (Re.lang (Re.Cat (Re.Lit ":") (Re.Plus (Re.Class nameChar)))
                (String ":" "" +:+ v)).
      constructor; [by apply ReFacts.lang_lit | by apply ReFacts.lang_plus_class].
Qed.

(** What the code computes for a token the pattern accepts. *)
Lemma valid_split token :
  test validComponentRegex token = true ->
  (JS.contains ":" token = false /\ JS.split ":" token = [token]) \/
  (JS.contains ":" token = true /\
   JS.split ":" token = [Spec.before ":" token; Spec.after ":" token] /\
   Spec.before ":" token +:+ ":" +:+ Spec.after ":" token = token).
Proof.
  intros H. apply valid_iff in H as [[_ Hw] | (n & v & -> & [_ Hn] & [_ Hv])].
  - left. apply word_no_colon in Hw. by rewrite split_no_sep.
  - right. apply word_no_colon in Hn. apply word_no_colon in Hv.
    rewrite contains_append, split_append, before_append, after_append by done.
    rewrite split_no_sep by done. simpl. by rewrite orb_true_r.
Qed.

(** ** The state and the monad *)

Lemma with_trace_nil st : with_trace st [] = st.
Proof. destruct st. unfold with_trace. simpl. by rewrite app_nil_r. Qed.

Lemma with_trace_app st evs1 evs2 :
  with_trace (with_trace st evs1) evs2 = with_trace st (evs1 ++ evs2).
Proof. unfold with_trace. simpl. by rewrite app_assoc. Qed.

Lemma emit_eq e st : emit e st = (Return tt, with_trace st [e]).
Proof. done. Qed.

Lemma bind_emit {B} e (k : unit -> M B) st :
  bind (emit e) k st = k tt (with_trace st [e]).
Proof. done. Qed.

Lemma bind_ret {A B} (a : A) (k : A -> M B) st : bind (ret a) k st = k a st.
Proof. done. Qed.

Lemma bind_lift {A B} (o : outcome A) (k : A -> M B) st :
  bind (lift o) k st =
  match o with Return a => k a st | Throw e => (Throw e, st) end.
Proof. unfold bind, lift. by destruct o. Qed.

Lemma for_of_app {A} (xs ys : list A) (body : A -> M unit) st :
  for_of (xs ++ ys) body st = bind (for_of xs body) (fun _ => for_of ys body) st.
Proof.
  revert st. induction xs as [|x xs IH]; intros st; simpl; [done |].
  unfold bind in *. destruct (body x st) as [[[]|e] st']; [| done].
  by rewrite IH.
Qed.

(** ** The Specifier Normalizer *)

Lemma validate_spec components : forall acc st,
  validate components acc st =
  (Return (acc ++ map Spec.canonical
                    (filter (fun token => test validComponentRegex token = true)
                            components)),
   with_trace st (map Spec.diagnostic components)).
Proof.
  induction components as [|token rest IH]; intros acc st.
  - simpl. by rewrite app_nil_r, with_trace_nil.
  - assert (D : Spec.diagnostic token =
                 if test validComponentRegex token
                 then console_log ("Component: " +:+ Spec.name token +:+
                                   ", Version: " +:+ Spec.version token)
                 else error ("Invalid component name: " +:+ token)) by done.
    cbn [validate map]. rewrite filter_cons, D.
    destruct (test validComponentRegex token) eqn:V; cbn [negb].
    + rewrite decide_True by done. cbn [map].
      unfold Spec.canonical, Spec.name, Spec.version.
      destruct (valid_split token V) as [[C S] | (C & S & E)]; rewrite S, C.
      * cbn [length Nat.ltb Nat.leb]. rewrite bind_emit, IH, with_trace_app.
        rewrite <- app_assoc. by rewrite before_no_sep.
      * cbn [length Nat.ltb Nat.leb element lookup list_lookup].
        rewrite bind_emit, IH, with_trace_app. by rewrite <- app_assoc.
    + rewrite bind_emit, IH, with_trace_app. by rewrite decide_False.
Qed.

(** ** The Manifest Scanner refines the depth-first list of visits *)

Section ScannerFacts.

Variable yaml_parse : string -> outcome yaml_value.
Variable host : Host.
Variable logChecks : bool.
Variable fileNameRegex : RegExp.
Variable wanted : list string.

#[local] Abbreviation declared := (Spec.declared yaml_parse).
#[local] Abbreviation assign := (Spec.assign host wanted).
#[local] Abbreviation collect := (Spec.collect yaml_parse host wanted).
#[local] Abbreviation attempted := (Spec.attempted yaml_parse).
#[local] Abbreviation visitsNode := (Spec.visitsNode fileNameRegex).
#[local] Abbreviation visitsEntries := (Spec.visitsEntries fileNameRegex).
#[local] Abbreviation visitsRoot := (Spec.visitsRoot host fileNameRegex).
#[local] Abbreviation visitsRoots := (Spec.visitsRoots host fileNameRegex).
#[local] Abbreviation refines := (refines yaml_parse host wanted).

Lemma collect_app vs1 vs2 m :
  collect (vs1 ++ vs2) m =
  match collect vs1 m with
  | (Return _, m') => collect vs2 m'
  | (Throw e, m') => (Throw e, m')
  end.
Proof.
  revert m. induction vs1 as [|v vs1 IH]; intros m; simpl; [done |].
  destruct (declared v); [apply IH | done].
Qed.

Lemma attempted_app vs1 vs2 m :
  attempted (vs1 ++ vs2) =
  attempted vs1 ++
  match fst (collect vs1 m) with
  | Return _ => attempted vs2
  | Throw _ => []
  end.
Proof.
  revert m. induction vs1 as [|v vs1 IH]; intros m; simpl; [done |].
  destruct (declared v); simpl; [by rewrite <- IH | done].
Qed.

Lemma refines_ret : refines (ret tt) [].
Proof. intros st. simpl. by rewrite app_nil_r. Qed.

Lemma reads_with_trace st evs :
  reads (with_trace st evs) = reads st ++ filter (fun e => is_readFileSync e = true) evs.
Proof. unfold reads. simpl. by rewrite filter_app. Qed.

Lemma refines_emit e : is_readFileSync e = false -> refines (emit e) [].
Proof.
  intros H st. rewrite emit_eq. simpl. split_and!; [done | done |].
  rewrite reads_with_trace, filter_cons, H. by rewrite decide_False.
Qed.

Lemma refines_bind m1 m2 vs1 vs2 :
  refines m1 vs1 -> refines m2 vs2 -> refines (m1;; m2) (vs1 ++ vs2).
Proof.
  intros H1 H2 st. destruct (H1 st) as (Ho & Hm & Hr).
  rewrite collect_app, (attempted_app vs1 vs2 (componentMap st)).
  unfold bind. destruct (m1 st) as [[[]|e] st1]; simpl in *;
    destruct (collect vs1 (componentMap st)) as [[[]|e'] m']; simpl in *;
    try discriminate; subst.
  - destruct (H2 st1) as (Ho2 & Hm2 & Hr2).
    rewrite Ho2, Hm2, Hr2, Hr. rewrite flat_map_app, app_assoc.
    by destruct (collect vs2 (componentMap st1)).
  - injection Ho as ->. rewrite Hr, flat_map_app. simpl.
    by rewrite !app_nil_r.
Qed.

Lemma refines_throw e' dir :
  is_readFileSync e' = false ->
  refines (emit e';; throw ("ENOTDIR: not a directory, scandir '" +:+ dir +:+ "'"))
          [Spec.NotADirectory dir].
Proof.
  intros H st. rewrite bind_emit. unfold throw. simpl. split_and!; [done | done |].
  rewrite reads_with_trace, filter_cons, H, decide_False by done.
  by rewrite filter_nil.
Qed.

(** The inner loop over the wanted list. *)
Lemma record_loop v component ws : forall st,
  for_of ws (fun neededComponent =>
    if strict_equal (JS.head_of_split ":" neededComponent) component then
      record_match neededComponent (Spec.absolutePath host v) component
    else ret tt) st =
  (Return tt,
   {| componentMap :=
        foldl (fun m neededComponent =>
                 if strict_equal (JS.head_of_split ":" neededComponent) component
                 then set_property neededComponent (Spec.absolutePath host v) m
                 else m)
              (componentMap st) ws;
      foundComponents :=
        foundComponents st ++
        map (fun _ => component)
            (filter (fun neededComponent =>
                       strict_equal (JS.head_of_split ":" neededComponent) component = true)
                    ws);
      trace := trace st |}).
Proof.
  induction ws as [|w ws IH]; intros st.
  - simpl. rewrite app_nil_r. by destruct st.
  - cbn [for_of foldl]. rewrite filter_cons. unfold bind.
    destruct (strict_equal (JS.head_of_split ":" w) component).
    + unfold record_match. rewrite IH. simpl. by rewrite <- app_assoc.
    + unfold ret. by rewrite IH.
Qed.

Lemma refines_readManifest filePath content :
  refines (readManifest yaml_parse host wanted filePath content)
          [Spec.Manifest filePath content].
Proof.
  intros st. unfold readManifest. rewrite bind_emit, bind_lift. simpl.
  destruct (yaml_parse content) as [doc|e]; simpl.
  - rewrite bind_lift. destruct (get_component doc) as [component|e]; simpl.
    + pose proof (record_loop (Spec.Manifest filePath content) component wanted
                    (with_trace st [readFileSync filePath])) as L.
      unfold Spec.absolutePath in L. simpl in L. rewrite L. simpl.
      split_and!; [done | done |]. unfold reads. simpl. by rewrite filter_app.
    + split_and!; [done | done |]. by rewrite reads_with_trace.
  - split_and!; [done | done |]. by rewrite reads_with_trace.
Qed.

Lemma refines_search :
  (forall n dir,
      refines (searchNode yaml_parse host logChecks fileNameRegex wanted dir n)
              (visitsNode dir n)) /\
  (forall files dir,
      refines (searchEntries yaml_parse host logChecks fileNameRegex wanted dir files)
              (visitsEntries dir files)).
Proof.
  apply node_mutind.
  - intros content dir. cbn [searchNode Spec.visitsNode]. by apply refines_throw.
  - intros files IH dir. cbn [searchNode Spec.visitsNode].
    apply (refines_bind _ _ []); [by apply refines_emit | apply IH].
  - intros dir. apply refines_ret.
  - intros file child IHc rest IHr dir. cbn [searchEntries Spec.visitsEntries].
    apply (refines_bind _ _ []); [by apply refines_emit |].
    apply (refines_bind _ _ []).
    { destruct logChecks; [by apply refines_emit | apply refines_ret]. }
    apply refines_bind; [| apply IHr].
    destruct child as [content | files].
    + destruct (test fileNameRegex file);
        [apply refines_readManifest | apply refines_ret].
    + apply (refines_bind _ _ []); [by apply refines_emit | apply IHc].
Qed.

Lemma refines_searchForComponent dir :
  refines (searchForComponent yaml_parse host logChecks fileNameRegex wanted dir)
          (visitsRoot dir).
Proof.
  unfold searchForComponent, Spec.visitsRoot.
  apply (refines_bind _ _ []); [by apply refines_emit |].
  destruct (Fs.lookup (root host) (cwd host) dir) as [n|].
  - apply refines_search.
  - by apply refines_emit.
Qed.

Lemma refines_roots dirs :
  refines (for_of dirs (searchForComponent yaml_parse host logChecks fileNameRegex wanted))
          (visitsRoots dirs).
Proof.
  induction dirs as [|dir dirs IH]; simpl; [apply refines_ret |].
  apply refines_bind; [apply refines_searchForComponent | apply IH].
Qed.

End ScannerFacts.

(** ** The mapping built by a sequence of visits *)

Lemma lookup_set_property key value (m : gmap string string) k :
  set_property key value m !! k =
  if decide (key = k /\ key <> "__proto__") then Some value else m !! k.
Proof.
  unfold set_property. destruct (String.eqb_spec key "__proto__") as [E|E].
  - rewrite decide_False; [done | tauto].
  - rewrite lookup_insert. destruct (decide (key = k)) as [->|N].
    + by rewrite decide_True.
    + rewrite decide_False; [done | tauto].
Qed.

Section Mapping.

Variable yaml_parse : string -> outcome yaml_value.
Variable host : Host.
Variable wanted : list string.

#[local] Abbreviation declared := (Spec.declared yaml_parse).
#[local] Abbreviation declares := (Spec.declares yaml_parse).
#[local] Abbreviation assign := (Spec.assign host wanted).
#[local] Abbreviation collect := (Spec.collect yaml_parse host wanted).
#[local] Abbreviation absolutePath := (Spec.absolutePath host).
#[local] Abbreviation justified := (justified yaml_parse host wanted).

(** One visit writes, under every wanted key whose name it declares, its
    own absolute path, and leaves the other keys alone. *)
Lemma assign_lookup v component (m : gmap string string) k :
  assign v component m !! k =
  if decide (k ∈ wanted /\
             strict_equal (JS.head_of_split ":" k) component = true /\
             k <> "__proto__")
  then Some (absolutePath v) else m !! k.
Proof.
  clear yaml_parse. unfold Spec.assign. generalize wanted as ws. intros ws. revert m.
  induction ws as [|w ws IH]; intros m; cbn [foldl].
  - rewrite decide_False; [done |]. intros [H _]. by apply not_elem_of_nil in H.
  - rewrite IH. destruct (decide (k ∈ ws /\ _)) as [(Hin & Hs & Hp) | N].
    + rewrite decide_True; [done |]. split_and!; [apply elem_of_cons; by right | done | done].
    + destruct (strict_equal (JS.head_of_split ":" w) component) eqn:E.
      * rewrite lookup_set_property.
        destruct (decide (w = k /\ w <> "__proto__")) as [[-> Hp] | N'].
        -- rewrite decide_True; [done |]. split_and!; [apply elem_of_cons; by left | done | done].
        -- rewrite decide_False; [done |]. intros (Hin & Hs & Hp).
           apply elem_of_cons in Hin as [-> | Hin]; tauto.
      * rewrite decide_False; [done |]. intros (Hin & Hs & Hp).
        apply elem_of_cons in Hin as [-> | Hin]; [congruence | tauto].
Qed.

Lemma strict_equal_iff name component :
  strict_equal name component = true <-> component = Some (YString name).
Proof.
  unfold strict_equal. destruct component as [[]|]; try (split; [discriminate | congruence]).
  rewrite String.eqb_eq. split; congruence.
Qed.

(** Visits that do not declare the name of [k] leave its entry alone. *)
Lemma collect_other vs k : forall m,
  Forall (fun v => ~ declares v (JS.head_of_split ":" k)) vs ->
  snd (collect vs m) !! k = m !! k.
Proof.
  induction vs as [|v vs IH]; intros m H; simpl; [done |].
  apply Forall_cons in H as [Hv Hvs].
  destruct (declared v) as [component|e] eqn:D; [| done].
  rewrite IH by done. rewrite assign_lookup, decide_False; [done |].
  intros (_ & Hs & _). apply strict_equal_iff in Hs. apply Hv.
  unfold Spec.declares. by rewrite D, Hs.
Qed.

(** Last write wins: after a scan that ran to its end, a wanted key holds
    the absolute path of the last visit that declares its name. *)
Lemma collect_last vs1 v vs2 k m m' :
  collect (vs1 ++ v :: vs2) m = (Return tt, m') ->
  k ∈ wanted -> k <> "__proto__" ->
  declares v (JS.head_of_split ":" k) ->
  Forall (fun v' => ~ declares v' (JS.head_of_split ":" k)) vs2 ->
  m' !! k = Some (absolutePath v).
Proof.
  intros H Hin Hp Hv Hvs2. rewrite collect_app in H.
  destruct (collect vs1 m) as [[[]|e] m1]; [| discriminate].
  simpl in H. unfold Spec.declares in Hv. rewrite Hv in H.
  pose proof (collect_other vs2 k (assign v (Some (YString (JS.head_of_split ":" k))) m1) Hvs2) as Ho.
  rewrite H in Ho. simpl in Ho. rewrite Ho, assign_lookup, decide_True; [done |].
  split_and!; [done | by apply strict_equal_iff | done].
Qed.

(** No visit declares the name: the key stays out of the mapping. *)
Lemma collect_none vs k :
  Forall (fun v => ~ declares v (JS.head_of_split ":" k)) vs ->
  snd (collect vs ∅) !! k = None.
Proof. intros H. by rewrite collect_other. Qed.

Lemma justified_empty vs : justified vs ∅.
Proof. intros k value H. by rewrite lookup_empty in H. Qed.

Lemma declares_manifest v n :
  declares v n -> exists filePath content, v = Spec.Manifest filePath content.
Proof. destruct v; [eauto | discriminate]. Qed.

Lemma justified_collect all vs : forall m,
  vs ⊆ all -> justified all m -> justified all (snd (collect vs m)).
Proof.
  induction vs as [|v vs IH]; intros m Hsub Hm; simpl; [done |].
  destruct (declared v) as [component|e] eqn:D; [| done].
  apply IH; [set_solver |].
  intros k value. rewrite assign_lookup.
  destruct (decide _) as [(Hin & Hs & Hp) | N]; [| apply Hm].
  intros [= <-]. split; [done |].
  apply strict_equal_iff in Hs. rewrite split_head in Hs.
  assert (Hd : declares v (Spec.before ":" k)) by (unfold Spec.declares; by rewrite D, Hs).
  destruct (declares_manifest v _ Hd) as (filePath & content & ->).
  exists filePath, content. split_and!; [set_solver | done | done].
Qed.

End Mapping.

(** ** Absolute paths *)

Lemma isAbsolute_normalize p : Path.isAbsolute p = true -> Path.isAbsolute (Path.normalize p) = true.
Proof.
  intros H. unfold Path.normalize.
  destruct (String.eqb_spec p "") as [-> | _]; [discriminate |].
  rewrite H. simpl. by destruct (String.eqb _ "").
Qed.

Lemma isAbsolute_append p q : Path.isAbsolute p = true -> Path.isAbsolute (p +:+ q) = true.
Proof. by destruct p. Qed.

Lemma isAbsolute_join dir file :
  Path.isAbsolute dir = true -> Path.isAbsolute (Path.join dir file) = true.
Proof.
  intros H. unfold Path.join.
  destruct (String.eqb_spec dir "") as [-> | _]; [discriminate |].
  destruct (String.eqb file ""); apply isAbsolute_normalize; [done |].
  by apply isAbsolute_append.
Qed.

Lemma resolveLoop_absolute cwd rargs : forall acc,
  Path.isAbsolute cwd = true -> snd (Path.resolveLoop cwd rargs acc) = true.
Proof.
  induction rargs as [|p rest IH]; intros acc H; simpl.
  - destruct (String.eqb_spec cwd "") as [-> | _]; [discriminate | done].
  - destruct (String.eqb p ""); [by apply IH |].
    destruct (Path.isAbsolute p); [done | by apply IH].
Qed.

(** [path.resolve] answers an absolute path in a process whose working
    directory is absolute. *)
Lemma isAbsolute_resolve cwd args :
  Path.isAbsolute cwd = true -> Path.isAbsolute (Path.resolve cwd args) = true.
Proof.
  intros H. unfold Path.resolve.
  pose proof (resolveLoop_absolute cwd (rev args) "" H) as L.
  destruct (Path.resolveLoop cwd (rev args) "") as [p b]. simpl in L. by subst.
Qed.

(** ** Paths and the file system agree *)

Lemma split_append_sep sep a b :
  JS.split sep (a +:+ String sep b) = JS.split sep a ++ JS.split sep b.
Proof.
  induction a as [|c a IH]; simpl.
  - by rewrite Ascii.eqb_refl.
  - destruct (Ascii.eqb c sep); simpl; [by rewrite IH |].
    rewrite IH. pose proof (split_not_nil sep a) as Hne.
    by destruct (JS.split sep a).
Qed.

Lemma split_elements sep s : Forall (fun x => JS.contains sep x = false) (JS.split sep s).
Proof.
  induction s as [|c s IH]; simpl; [by repeat constructor |].
  destruct (Ascii.eqb c sep) eqn:E; [by constructor |].
  destruct (JS.split sep s) as [|h t]; [by repeat constructor; simpl; rewrite E |].
  apply Forall_cons in IH as [Hh Ht]. constructor; [| done]. simpl. by rewrite E, Hh.
Qed.

Lemma join_cons_cons sep x y rest :
  JS.join sep (x :: y :: rest) = x +:+ sep +:+ JS.join sep (y :: rest).
Proof. done. Qed.

Lemma split_join ns :
  ns <> [] -> Forall (fun x => JS.contains "/" x = false) ns ->
  JS.split "/" (JS.join "/" ns) = ns.
Proof.
  induction ns as [|x [|y rest] IH]; intros Hne H; [done | |].
  - simpl. apply split_no_sep. by apply Forall_cons in H as [? _].
  - rewrite join_cons_cons. apply Forall_cons in H as [Hx H].
    change (x +:+ "/" +:+ JS.join "/" (y :: rest))
      with (x +:+ String "/" (JS.join "/" (y :: rest))).
    rewrite split_append by done. by rewrite IH.
Qed.

Module FsFacts.
Import Fs.

Lemma walk_app pos segs1 segs2 :
  walk pos (segs1 ++ segs2) =
  match walk pos segs1 with
  | Some pos' => walk pos' segs2
  | None => None
  end.
Proof.
  revert pos. induction segs1 as [|seg segs1 IH]; intros pos; simpl; [done |].
  destruct (step pos seg); [apply IH | done].
Qed.

Lemma step_skip pos seg pos' :
  seg = "" \/ seg = "." -> step pos seg = Some pos' -> pos' = pos.
Proof.
  unfold step. intros H. destruct (snd pos); [done |].
  destruct H as [-> | ->]; simpl; congruence.
Qed.

Lemma step_named pos seg pos' :
  named seg -> step pos seg = Some pos' ->
  exists es, snd pos = Dir es /\ entry seg es = Some (snd pos') /\
             fst pos' = snd pos :: fst pos.
Proof.
  intros (H1 & H2 & H3). unfold step. destruct (snd pos) as [|es]; [done |].
  apply String.eqb_neq in H1, H2, H3. rewrite H1, H2, H3. simpl.
  destruct (entry seg es) as [c|] eqn:E; [| done]. intros [= <-]. by exists es.
Qed.

Lemma step_up pos pos' :
  step pos ".." = Some pos' ->
  pos' = match fst pos with [] => pos | parent :: up => (up, parent) end.
Proof.
  unfold step. destruct (snd pos); [done |]. simpl.
  destruct (fst pos); congruence.
Qed.

(** Lexical normalization does not change where a path that resolves
    leads. [res] is the normalized prefix, last segment first; it leads
    from [pos0] to [pos]. Without [allowAboveRoot] the walk starts at the
    root. *)
Lemma walk_normalizeSegments allow segs : forall res pos0 pos result,
  (allow = false -> fst pos0 = []) ->
  Forall (fun seg => seg <> "" /\ seg <> ".") res ->
  (allow = false -> Forall (fun seg => seg <> "..") res) ->
  walk pos0 (rev res) = Some pos ->
  walk pos segs = Some result ->
  walk pos0 (Path.normalizeSegments allow res segs) = Some result.
Proof.
  induction segs as [|seg rest IH]; intros res pos0 pos result Hroot Hres Hdots Hpos Hwalk.
  - simpl in *. congruence.
  - cbn [walk] in Hwalk. destruct (step pos seg) as [pos'|] eqn:Hstep; [| done].
    cbn [Path.normalizeSegments].
    destruct (String.eqb_spec seg "") as [-> | N1]; simpl.
    { rewrite (step_skip pos "" pos') in Hwalk by auto. by eapply IH. }
    destruct (String.eqb_spec seg ".") as [-> | N2].
    { rewrite (step_skip pos "." pos') in Hwalk by auto. by eapply IH. }
    destruct (String.eqb_spec seg "..") as [-> | N3].
    + pose proof (step_up _ _ Hstep) as Hup. destruct res as [|last res'].
      * simpl in Hpos. injection Hpos as <-. destruct allow.
        -- eapply IH; [done | by repeat constructor | done | | exact Hwalk].
           simpl. by rewrite Hstep.
        -- rewrite Hroot in Hup by done. subst pos'. by eapply IH.
      * destruct (String.eqb_spec last "..") as [-> | N4].
        -- destruct allow.
           ++ eapply IH; [done | | done | | exact Hwalk].
              ** by constructor.
              ** change (rev (".." :: ".." :: res')) with (rev (".." :: res') ++ [".."]).
                 rewrite walk_app, Hpos. simpl. by rewrite Hstep.
           ++ specialize (Hdots eq_refl). by apply Forall_cons in Hdots as [? _].
        -- apply Forall_cons in Hres as [[L1 L2] Hres].
           simpl in Hpos. rewrite walk_app in Hpos.
           destruct (walk pos0 (rev res')) as [pos1|] eqn:W1; [| done].
           simpl in Hpos. destruct (step pos1 last) as [pos2|] eqn:S1; [| done].
           injection Hpos as ->.
           destruct (step_named pos1 last pos (conj L1 (conj L2 N4)) S1)
             as (es & _ & _ & Hfst).
           rewrite Hfst in Hup. subst pos'.
           eapply IH; [done | done | | | exact Hwalk].
           ++ intros Ha. specialize (Hdots Ha). by apply Forall_cons in Hdots as [_ ?].
           ++ rewrite W1. by destruct pos1.
    + eapply IH; [done | | | | exact Hwalk].
      * by constructor.
      * intros Ha. constructor; [done | by apply Hdots].
      * simpl. rewrite walk_app, Hpos. simpl. by rewrite Hstep.
Qed.


Lemma step_dir pos seg pos' : step pos seg = Some pos' -> exists es, snd pos = Dir es.
Proof. unfold step. destruct (snd pos) as [|es]; [done | eauto]. Qed.

Lemma walk_dir pos segs pos' :
  segs <> [] -> walk pos segs = Some pos' -> exists es, snd pos = Dir es.
Proof.
  destruct segs as [|seg rest]; [done |]. intros _. simpl.
  destruct (step pos seg) eqn:E; [| done]. intros _. by eapply step_dir.
Qed.

Lemma step_empty pos es : snd pos = Dir es -> step pos "" = Some pos.
Proof. intros H. unfold step. by rewrite H. Qed.

Lemma walk_empty_segment pos es segs :
  snd pos = Dir es -> walk pos ("" :: segs) = walk pos segs.
Proof. intros H. cbn [walk]. unfold step. by rewrite H. Qed.

Lemma normalizeSegments_plain allow segs : forall res,
  Forall (fun seg => JS.contains "/" seg = false) segs ->
  Forall plain res -> Forall plain (Path.normalizeSegments allow res segs).
Proof.
  induction segs as [|seg rest IH]; intros res Hsegs Hres; cbn [Path.normalizeSegments].
  - by apply Forall_rev.
  - apply Forall_cons in Hsegs as [Hseg Hrest].
    destruct (String.eqb_spec seg "") as [-> | N1]; simpl; [by apply IH |].
    destruct (String.eqb_spec seg ".") as [-> | N2]; [by apply IH |].
    destruct (String.eqb_spec seg "..") as [-> | N3].
    + destruct res as [|last res'].
      * apply IH; [done |]. destruct allow; by repeat constructor.
      * destruct (String.eqb last "..").
        -- apply IH; [done |]. destruct allow; [by constructor | done].
        -- apply IH; [done |]. by apply Forall_cons in Hres as [_ ?].
    + apply IH; [done |]. by constructor.
Qed.

Lemma normalizeSegments_snoc_named allow segs name : forall res,
  named name ->
  Path.normalizeSegments allow res (segs ++ [name]) =
  Path.normalizeSegments allow res segs ++ [name].
Proof.
  intros res (H1 & H2 & H3). apply String.eqb_neq in H1, H2, H3.
  revert res. induction segs as [|seg rest IH]; intros res; cbn [app Path.normalizeSegments].
  - by rewrite H1, H2, H3.
  - destruct (String.eqb seg "" || String.eqb seg "."); [apply IH |].
    destruct (String.eqb seg ".."); [| apply IH].
    destruct res as [|last res']; [apply IH |].
    destruct (String.eqb last ".."); apply IH.
Qed.

Lemma normalizeSegments_snoc_empty allow segs : forall res,
  Path.normalizeSegments allow res (segs ++ [""]) =
  Path.normalizeSegments allow res segs.
Proof.
  induction segs as [|seg rest IH]; intros res; cbn [app Path.normalizeSegments]; [done |].
  destruct (String.eqb seg "" || String.eqb seg "."); [apply IH |].
  destruct (String.eqb seg ".."); [| apply IH].
  destruct res as [|last res']; [apply IH |].
  destruct (String.eqb last ".."); apply IH.
Qed.

Lemma join_plain_relative ns :
  ns <> [] -> Forall plain ns ->
  JS.join "/" ns <> "" /\ Path.isAbsolute (JS.join "/" ns) = false.
Proof.
  destruct ns as [|x rest]; [done |]. intros _ H.
  apply Forall_cons in H as [[Hx Hs] _].
  destruct x as [|c x]; [done |]. simpl in Hs. apply orb_false_iff in Hs as [Hc _].
  destruct rest; simpl; by rewrite ?Hc.
Qed.

Lemma plain_no_slash ns : Forall plain ns -> Forall (fun x => JS.contains "/" x = false) ns.
Proof. intros H. eapply Forall_impl; [exact H |]. by intros x [_ ?]. Qed.

Lemma endsWithSlash_append a b :
  b <> "" -> Path.endsWithSlash (a +:+ b) = Path.endsWithSlash b.
Proof.
  intros Hb. induction a as [|c a IH]; [done |].
  simpl. destruct (a +:+ b) eqn:E; [| done].
  apply append_eq_nil in E as [_ ->]. done.
Qed.

Lemma endsWithSlash_plain s : JS.contains "/" s = false -> Path.endsWithSlash s = false.
Proof.
  induction s as [|c s IH]; [done |]. simpl. intros H.
  apply orb_false_iff in H as [Hc Hs]. destruct s; [done | by apply IH].
Qed.

Lemma validName_spec name :
  validName name = true -> named name /\ JS.contains "/" name = false.
Proof.
  unfold validName, named. rewrite !andb_true_iff, !negb_true_iff.
  intros [[[H1 H2] H3] H4]. apply String.eqb_neq in H1, H2, H3. done.
Qed.

Section Lookup.

Variable root : node.
Variable cwd : string.

Lemma lookup_walk p n :
  lookup root cwd p = Some n <->
  p <> "" /\ exists pos, walk ([], root) (JS.split "/" (full cwd p)) = Some pos /\ snd pos = n.
Proof.
  unfold lookup. destruct (String.eqb_spec p "") as [-> | N].
  - split; [done | by intros [? _]].
  - destruct (walk _ _) as [pos|]; split.
    + intros [= <-]. eauto.
    + intros (_ & pos' & [= <-] & <-). done.
    + done.
    + by intros (_ & pos' & ? & _).
Qed.

(** A path and its normal form name the same node. *)
Lemma walk_normalized allow pos0 p result :
  (allow = false -> fst pos0 = []) ->
  walk pos0 (JS.split "/" p) = Some result ->
  walk pos0 (Path.normalizeSegments allow [] (JS.split "/" p)) = Some result.
Proof.
  intros Hroot H. by eapply (walk_normalizeSegments allow _ [] pos0 pos0).
Qed.

(** The entry [file] of the directory at [dir] is at [path.join(dir, file)]. *)
Lemma lookup_join dir file es child :
  lookup root cwd dir = Some (Dir es) ->
  entry file es = Some child ->
  validName file = true ->
  lookup root cwd (Path.join dir file) = Some child.
Proof.
  intros Hdir Hentry Hvalid.
  apply validName_spec in Hvalid as [Hnamed Hslash].
  pose proof Hnamed as (Hf1 & Hf2 & Hf3).
  apply lookup_walk in Hdir as (Hd & posd & Hwalk & Hposd).
  assert (Hstep : step posd file = Some (snd posd :: fst posd, child)).
  { unfold step. rewrite Hposd.
    apply String.eqb_neq in Hf1, Hf2, Hf3. rewrite Hf1, Hf2, Hf3. simpl.
    by rewrite Hentry. }
  unfold Path.join. apply String.eqb_neq in Hd, Hf1. rewrite Hd, Hf1.
  apply String.eqb_neq in Hd, Hf1.
  set (p := dir +:+ "/" +:+ file).
  assert (Hsplit : JS.split "/" p = JS.split "/" dir ++ [file]).
  { unfold p. change (dir +:+ "/" +:+ file) with (dir +:+ String "/" file).
    by rewrite split_append_sep, (split_no_sep "/" file). }
  assert (Habs : Path.isAbsolute p = Path.isAbsolute dir) by (by destruct dir).
  assert (Hp : p <> "") by (by destruct dir).
  assert (Hend : Path.endsWithSlash p = false).
  { unfold p. rewrite endsWithSlash_append by done.
    change ("/" +:+ file) with (String "/" file).
    destruct file; [done |]. by apply (endsWithSlash_plain (String a file)). }
  unfold Path.normalize. apply String.eqb_neq in Hp. rewrite Hp, Hend, Habs.
  unfold Path.normalizeString. rewrite Hsplit.
  rewrite normalizeSegments_snoc_named by done.
  set (ns := Path.normalizeSegments (negb (Path.isAbsolute dir)) [] (JS.split "/" dir)).
  assert (Hplain : Forall plain (ns ++ [file])).
  { apply Forall_app. split.
    - apply normalizeSegments_plain; [apply split_elements | done].
    - by repeat constructor. }
  assert (Hne : ns ++ [file] <> []) by (by destruct ns).
  destruct (join_plain_relative _ Hne Hplain) as [Hq Hrel].
  apply String.eqb_neq in Hq. rewrite Hq. apply String.eqb_neq in Hq.
  apply lookup_walk. unfold full in *.
  destruct (Path.isAbsolute dir) eqn:Ha; simpl.
  - split; [done |]. exists (snd posd :: fst posd, child). split; [| done].
    rewrite split_join by (done || by apply plain_no_slash).
    destruct (walk_dir _ _ _ (split_not_nil "/" dir) Hwalk) as (esr & Hroot).
    rewrite (step_empty _ esr) by done.
    assert (Hn : walk ([], root) ns = Some posd)
      by (by apply (walk_normalized false)).
    rewrite walk_app, Hn. simpl. by rewrite Hstep.
  - rewrite Hrel. split; [done |]. exists (snd posd :: fst posd, child). split; [| done].
    change (cwd +:+ "/" +:+ JS.join "/" (ns ++ [file]))
      with (cwd +:+ String "/" (JS.join "/" (ns ++ [file]))).
    change (cwd +:+ "/" +:+ dir) with (cwd +:+ String "/" dir) in Hwalk.
    rewrite split_append_sep in Hwalk |- *.
    rewrite split_join by (done || by apply plain_no_slash).
    rewrite walk_app in Hwalk |- *.
    destruct (walk ([], root) (JS.split "/" cwd)) as [posc|]; [| done].
    assert (Hn : walk posc ns = Some posd)
      by (by apply (walk_normalized true)).
    rewrite walk_app, Hn. simpl. by rewrite Hstep.
Qed.

(** A path that names a node and its resolved form name the same node. *)
Lemma lookup_resolve p n :
  Path.isAbsolute cwd = true ->
  lookup root cwd p = Some n ->
  lookup root cwd (Path.resolve cwd [p]) = Some n.
Proof.
  intros Hcwd Hp. apply lookup_walk in Hp as (Hne & pos & Hwalk & Hpos).
  assert (Hc : cwd <> "") by (by destruct cwd).
  assert (Hloop : Path.resolveLoop cwd [p] "" = (full cwd p +:+ "/", true)).
  { simpl. apply String.eqb_neq in Hne, Hc. rewrite Hne, Hc. unfold full.
    destruct (Path.isAbsolute p); rewrite ?Hcwd, ?append_nil_r, ?append_assoc; done. }
  unfold Path.resolve. change (rev [p]) with [p]. rewrite Hloop.
  unfold Path.normalizeString. cbn [negb].
  change (full cwd p +:+ "/") with (full cwd p +:+ String "/" "").
  rewrite split_append_sep. change (JS.split "/" "") with [""].
  rewrite normalizeSegments_snoc_empty.
  set (ns := Path.normalizeSegments false [] (JS.split "/" (full cwd p))).
  pose proof (walk_normalized false ([], root) (full cwd p) pos ltac:(done) Hwalk) as Hn.
  fold ns in Hn.
  destruct (walk_dir _ _ _ (split_not_nil "/" (full cwd p)) Hwalk) as (esr & Hroot).
  assert (Hplain : Forall plain ns)
    by (apply normalizeSegments_plain; [apply split_elements | done]).
  apply lookup_walk. split; [done |]. exists pos. split; [| done].
  assert (Hf : full cwd ("/" +:+ JS.join "/" ns) = "" +:+ String "/" (JS.join "/" ns))
    by reflexivity.
  rewrite Hf, split_append_sep. change (JS.split "/" "") with [""].
  cbn [app]. rewrite (walk_empty_segment _ esr) by done.
  destruct ns as [|x rest] eqn:En.
  - change (JS.split "/" (JS.join "/" [])) with [""].
    by rewrite (walk_empty_segment _ esr).
  - rewrite split_join by (done || by apply plain_no_slash). done.
Qed.

Lemma entry_names name es c : entry name es = Some c -> JS.includes (names es) name = true.
Proof.
  unfold JS.includes. induction es as [|n child rest IH]; [done |].
  simpl. rewrite (String.eqb_sym n name).
  destruct (String.eqb name n); [done | by intros ?%IH].
Qed.

Lemma entry_wellFormed name es c :
  wellFormedEntries es = true -> entry name es = Some c -> wellFormed c = true.
Proof.
  induction es as [|n child rest IH]; [done |].
  simpl. rewrite !andb_true_iff. intros [[_ Hc] Hrest].
  destruct (String.eqb n name); [by intros [= <-] | by apply IH].
Qed.

Lemma step_wellFormed pos seg pos' :
  Forall (fun n => wellFormed n = true) (snd pos :: fst pos) ->
  step pos seg = Some pos' ->
  Forall (fun n => wellFormed n = true) (snd pos' :: fst pos').
Proof.
  destruct pos as [ancestors cur]. unfold step. simpl. intros H.
  destruct cur as [|es]; [done |].
  destruct (String.eqb seg "" || String.eqb seg "."); [by intros [= <-] |].
  destruct (String.eqb seg "..").
  { destruct ancestors as [|parent up]; intros [= <-]; [done |].
    by apply Forall_cons in H as [_ ?]. }
  destruct (entry seg es) as [c|] eqn:He; [| done]. intros [= <-]. simpl.
  constructor; [| done]. apply Forall_cons in H as [H _].
  by eapply entry_wellFormed.
Qed.

Lemma walk_wellFormed segs : forall pos pos',
  Forall (fun n => wellFormed n = true) (snd pos :: fst pos) ->
  walk pos segs = Some pos' ->
  Forall (fun n => wellFormed n = true) (snd pos' :: fst pos').
Proof.
  induction segs as [|seg rest IH]; intros pos pos' H; simpl; [by intros [= <-] |].
  destruct (step pos seg) as [pos1|] eqn:E; [| done].
  apply IH. by eapply step_wellFormed.
Qed.

Lemma lookup_wellFormed p n :
  wellFormed root = true -> lookup root cwd p = Some n -> wellFormed n = true.
Proof.
  intros Hroot Hp. apply lookup_walk in Hp as (_ & pos & Hwalk & <-).
  eapply walk_wellFormed in Hwalk; [by apply Forall_cons in Hwalk as [? _] |].
  by repeat constructor.
Qed.

(** In a well-formed tree, every manifest of the traversal is the file at
    its path. *)
Lemma visits_at_their_paths r :
  (forall n dir,
      wellFormed n = true -> lookup root cwd dir = Some n ->
      forall filePath content,
        Spec.Manifest filePath content ∈ Spec.visitsNode r dir n ->
        lookup root cwd filePath = Some (File content)) /\
  (forall files dir listing,
      wellFormedEntries files = true ->
      lookup root cwd dir = Some (Dir listing) ->
      (forall name c, entry name files = Some c -> entry name listing = Some c) ->
      forall filePath content,
        Spec.Manifest filePath content ∈ Spec.visitsEntries r dir files ->
        lookup root cwd filePath = Some (File content)).
Proof.
  apply node_mutind.
  - intros content dir _ _ filePath c H. simpl in H.
    by apply list_elem_of_singleton in H.
  - intros files IH dir Hwf Hdir filePath c H. simpl in H.
    eapply IH; [exact Hwf | exact Hdir | done | exact H].
  - intros dir listing _ _ _ filePath c H. by apply elem_of_nil in H.
  - intros file child IHc rest IHr dir listing Hwf Hdir Hsub filePath c H.
    cbn [wellFormedEntries] in Hwf. apply andb_true_iff in Hwf as [Hwf Hrest].
    apply andb_true_iff in Hwf as [Hwf Hchild].
    apply andb_true_iff in Hwf as [Hname Hfresh]. apply negb_true_iff in Hfresh.
    assert (Hat : lookup root cwd (Path.join dir file) = Some child).
    { eapply lookup_join; [exact Hdir | | exact Hname].
      apply Hsub. simpl. by rewrite String.eqb_refl. }
    cbn [Spec.visitsEntries] in H. apply elem_of_app in H as [H | H].
    + destruct child as [content | files].
      * destruct (test r file); [| by apply elem_of_nil in H].
        apply list_elem_of_singleton in H. by injection H as -> ->.
      * by eapply IHc.
    + eapply IHr; [exact Hrest | exact Hdir | | exact H].
      intros name c' He. apply Hsub. simpl.
      destruct (String.eqb_spec file name) as [<- | _]; [| done].
      apply entry_names in He. congruence.
Qed.

End Lookup.

(** Every manifest met from the search roots is the file at its path, and
    at its resolved path. *)
Lemma visitsRoots_at_their_paths h r dirs filePath content :
  wellFormed (root h) = true ->
  Spec.Manifest filePath content ∈ Spec.visitsRoots h r dirs ->
  lookup (root h) (cwd h) filePath = Some (File content).
Proof.
  intros Hwf H. unfold Spec.visitsRoots in H.
  apply list_elem_of_In, in_flat_map in H as (dir & _ & H).
  apply list_elem_of_In in H. unfold Spec.visitsRoot in H.
  destruct (Fs.lookup (root h) (cwd h) dir) as [n|] eqn:Hdir;
    [| by apply elem_of_nil in H].
  eapply (proj1 (visits_at_their_paths (root h) (cwd h) r));
    [| exact Hdir | exact H].
  by eapply lookup_wellFormed.
Qed.

End FsFacts.

(** ** What a computation adds to the trace *)

Lemma emits_ret {A} P (a : A) : emits P (ret a).
Proof. intros st. exists []. by rewrite app_nil_r. Qed.

Lemma emits_throw {A} P e : emits P (@throw A e).
Proof. intros st. exists []. by rewrite app_nil_r. Qed.

Lemma emits_lift {A} P (o : outcome A) : emits P (lift o).
Proof. intros st. exists []. by rewrite app_nil_r. Qed.

Lemma emits_emit (P : event -> Prop) e : P e -> emits P (emit e).
Proof. intros H st. exists [e]. split; [done | by constructor]. Qed.

Lemma emits_bind {A B} P (m : M A) (k : A -> M B) :
  emits P m -> (forall a, emits P (k a)) -> emits P (bind m k).
Proof.
  intros Hm Hk st. destruct (Hm st) as (evs1 & E1 & F1). unfold bind.
  destruct (m st) as [[a|e] st1]; simpl in *.
  - destruct (Hk a st1) as (evs2 & E2 & F2). exists (evs1 ++ evs2).
    rewrite E2, E1, app_assoc. split; [done | by apply Forall_app].
  - by exists evs1.
Qed.

Lemma emits_for_of {A} P (xs : list A) (body : A -> M unit) :
  (forall x, emits P (body x)) -> emits P (for_of xs body).
Proof.
  intros H. induction xs as [|x xs IH]; simpl; [apply emits_ret |].
  apply emits_bind; [apply H | intros _; apply IH].
Qed.

Lemma emits_record_match P key value component :
  emits P (record_match key value component).
Proof. intros st. exists []. by rewrite app_nil_r. Qed.

Lemma emits_impl {A} (P Q : event -> Prop) (m : M A) :
  (forall e, P e -> Q e) -> emits P m -> emits Q m.
Proof.
  intros H Hm st. destruct (Hm st) as (evs & E & F). exists evs.
  split; [done | by eapply Forall_impl].
Qed.

Section ScannerTrace.

Variable yaml_parse : string -> outcome yaml_value.
Variable host : Host.
Variable logChecks : bool.
Variable fileNameRegex : RegExp.
Variable wanted : list string.
Variable absolute : bool.

Lemma emits_readManifest filePath content :
  (absolute = true -> Path.isAbsolute filePath = true) ->
  emits (scan_event absolute) (readManifest yaml_parse host wanted filePath content).
Proof.
  intros H. unfold readManifest.
  apply emits_bind; [by apply emits_emit | intros _].
  apply emits_bind; [apply emits_lift | intros doc].
  apply emits_bind; [apply emits_lift | intros component].
  apply emits_for_of. intros w.
  destruct (strict_equal _ _); [apply emits_record_match | apply emits_ret].
Qed.

Lemma emits_search :
  (forall n dir,
      (absolute = true -> Path.isAbsolute dir = true) ->
      emits (scan_event absolute)
            (searchNode yaml_parse host logChecks fileNameRegex wanted dir n)) /\
  (forall files dir,
      (absolute = true -> Path.isAbsolute dir = true) ->
      emits (scan_event absolute)
            (searchEntries yaml_parse host logChecks fileNameRegex wanted dir files)).
Proof.
  apply node_mutind.
  - intros content dir H. cbn [searchNode].
    apply emits_bind; [by apply emits_emit | intros _; apply emits_throw].
  - intros files IH dir H. cbn [searchNode].
    apply emits_bind; [by apply emits_emit | intros _; by apply IH].
  - intros dir H. apply emits_ret.
  - intros file child IHc rest IHr dir H. cbn [searchEntries].
    assert (Hj : absolute = true -> Path.isAbsolute (Path.join dir file) = true)
      by (intros Ha; apply isAbsolute_join; auto).
    apply emits_bind; [by apply emits_emit | intros _].
    apply emits_bind.
    { destruct logChecks; [by apply emits_emit | apply emits_ret]. }
    intros _. apply emits_bind; [| intros _; by apply IHr].
    destruct child as [content | files].
    + destruct (test fileNameRegex file);
        [by apply emits_readManifest | apply emits_ret].
    + apply emits_bind; [by apply emits_emit | intros _; by apply IHc].
Qed.

Lemma emits_searchForComponent dir :
  (absolute = true -> Path.isAbsolute dir = true) ->
  emits (scan_event absolute)
        (searchForComponent yaml_parse host logChecks fileNameRegex wanted dir).
Proof.
  intros H. unfold searchForComponent.
  apply emits_bind; [by apply emits_emit | intros _].
  destruct (Fs.lookup _ _ _); [by apply emits_search | by apply emits_emit].
Qed.

Lemma emits_roots dirs :
  (absolute = true -> Forall (fun dir => Path.isAbsolute dir = true) dirs) ->
  emits (scan_event absolute)
        (for_of dirs (searchForComponent yaml_parse host logChecks fileNameRegex wanted)).
Proof.
  intros H. induction dirs as [|dir dirs IH]; simpl; [apply emits_ret |].
  apply emits_bind.
  - apply emits_searchForComponent. intros Ha. specialize (H Ha).
    by apply Forall_cons in H as [? _].
  - intros _. apply IH. intros Ha. specialize (H Ha). by apply Forall_cons in H as [_ ?].
Qed.

End ScannerTrace.

(** ** The two runs, stage by stage *)

Lemma split_trim_length sep s : (length (map JS.trim (JS.split sep s)) =? 0) = false.
Proof.
  rewrite length_map. pose proof (split_length_pos sep s).
  apply Nat.eqb_neq. lia.
Qed.

Lemma Main_body_eq yaml_parse RegExp_new h :
  Main.body yaml_parse RegExp_new h initial =
  if String.eqb (INPUT h "components") "" then
    (Throw "Input required and not supplied: components", initial)
  else
    match Spec.requestSet (JS.trim (INPUT h "components")) with
    | [] =>
        (Return tt,
         with_trace (validated h (directories h))
           [setFailed "No valid components provided to search for."])
    | _ :: _ =>
        match RegExp_new (Main.patternText (JS.trim (INPUT h "component-file-name-regex"))) with
        | Throw e => (Throw e, validated h (directories h))
        | Return r =>
            (for_of (orCwd h (directories h))
               (searchForComponent yaml_parse h false r (tokens h));;
             warnNotFound (tokens h)) (validated h (directories h))
        end
    end.
Proof.
  unfold Main.body, getInput. cbn [andb]. rewrite bind_lift.
  destruct (String.eqb (INPUT h "components") ""); [done |].
  rewrite bind_lift, split_trim_length, bind_emit.
  unfold bind at 1. rewrite validate_spec, with_trace_app. cbn [app].
  fold (tokens h) (directories h). fold (announcement (tokens h) (directories h)).
  fold (validated h (directories h)). unfold Spec.requestSet. fold (tokens h).
  destruct (map Spec.canonical _) as [|c cs]; [done |].
  cbn [length Nat.eqb]. by rewrite !bind_lift.
Qed.

Lemma Part000_body_eq yaml_parse h :
  Part000.body yaml_parse h initial =
  if String.eqb (INPUT h "components") "" then
    (Throw "Input required and not supplied: components", initial)
  else
    match GITHUB_WORKSPACE h with
    | None => (Return tt, with_trace initial [setFailed "No repository path found."])
    | Some repositoryPath =>
        let dirs := Part000.resolveDirectories h repositoryPath (directories h) in
        match Spec.requestSet (JS.trim (INPUT h "components")) with
        | [] =>
            (Return tt,
             with_trace (validated h dirs)
               [setFailed "No valid components provided to search for."])
        | c :: cs =>
            (for_of (orCwd h dirs)
               (searchForComponent yaml_parse h true
                  Part000.defaultComponentFileNameRegex (c :: cs));;
             warnNotFound (c :: cs)) (validated h dirs)
        end
    end.
Proof.
  unfold Part000.body, getInput. cbn [andb]. rewrite bind_lift.
  destruct (String.eqb (INPUT h "components") ""); [done |].
  rewrite bind_lift, split_trim_length.
  destruct (GITHUB_WORKSPACE h) as [repositoryPath|]; [| done].
  rewrite bind_emit. unfold bind at 1. rewrite validate_spec, with_trace_app. cbn [app].
  fold (tokens h) (directories h).
  fold (announcement (tokens h) (Part000.resolveDirectories h repositoryPath (directories h))).
  fold (validated h (Part000.resolveDirectories h repositoryPath (directories h))).
  unfold Spec.requestSet. fold (tokens h).
  by destruct (map Spec.canonical _) as [|c cs].
Qed.

(** ** The last loop and the whole run *)

Lemma for_of_emit {A} (b : A -> bool) (f : A -> event) xs : forall st,
  for_of xs (fun x => if b x then emit (f x) else ret tt) st =
  (Return tt, with_trace st (map f (filter (fun x => b x = true) xs))).
Proof.
  induction xs as [|x xs IH]; intros st; cbn [for_of].
  - simpl. by rewrite with_trace_nil.
  - rewrite filter_cons. unfold bind. destruct (b x) eqn:E.
    + rewrite emit_eq, IH, with_trace_app, decide_True by done. done.
    + unfold ret. rewrite IH, decide_False; [done | congruence].
Qed.

Lemma warnNotFound_eq requested st :
  warnNotFound requested st = (Return tt, with_trace st (notFoundWarnings requested)).
Proof. unfold warnNotFound. by rewrite for_of_emit. Qed.

Lemma quiet_diagnostics components : Forall quiet (map Spec.diagnostic components).
Proof.
  apply Forall_map, Forall_forall. intros token _. unfold Spec.diagnostic.
  by destruct (test validComponentRegex token).
Qed.

Lemma quiet_validated h dirs : Forall quiet (trace (validated h dirs)).
Proof.
  unfold validated. simpl. apply Forall_cons. split; [done | apply quiet_diagnostics].
Qed.

Lemma quiet_not_read evs :
  Forall quiet evs -> filter (fun e => is_readFileSync e = true) evs = [].
Proof.
  induction 1 as [|e evs [He _] _ IH]; [done |].
  rewrite filter_cons, decide_False; [done |]. by destruct e.
Qed.

Lemma not_read_filter evs :
  Forall (fun e => is_readFileSync e = false) evs ->
  filter (fun e => is_readFileSync e = true) evs = [].
Proof.
  induction 1 as [|e evs He _ IH]; [done |].
  rewrite filter_cons, decide_False; [done | congruence].
Qed.

Lemma notFoundWarnings_not_read requested :
  filter (fun e => is_readFileSync e = true) (notFoundWarnings requested) = [].
Proof. apply not_read_filter. unfold notFoundWarnings. by apply Forall_map, Forall_forall. Qed.

Section Runs.

Variable yaml_parse : string -> outcome yaml_value.
Variable RegExp_new : string -> outcome RegExp.

#[local] Abbreviation run_of := (run_of yaml_parse RegExp_new).
#[local] Abbreviation fileNameRegex_of := (fileNameRegex_of RegExp_new).
#[local] Abbreviation scanAndReport := (scanAndReport yaml_parse).

(** A run that gets past step 1 with a non-empty request list and a
    pattern is the scan and the report, started in a state with an empty
    mapping and a trace of announcement and diagnostics only. *)
Lemma run_of_scan v h r :
  reachesValidation v h = true ->
  Spec.requestSet (JS.trim (INPUT h "components")) <> [] ->
  fileNameRegex_of v h = Return r ->
  exists st0,
    componentMap st0 = ∅ /\ Forall quiet (trace st0) /\
    run_of v h =
    catch (scanAndReport v h r (Spec.requestSet (JS.trim (INPUT h "components"))) st0).
Proof.
  unfold reachesValidation. intros Hv Hne Hr.
  apply andb_true_iff in Hv as [Hin Hw]. apply negb_true_iff in Hin.
  destruct v; simpl in Hr |- *.
  - exists (validated h (directories h)). split_and!; [done | apply quiet_validated |].
    unfold Main.run, try_catch. rewrite Main_body_eq, Hin.
    destruct (Spec.requestSet _) as [|c cs]; [done |]. by rewrite Hr.
  - apply bool_decide_eq_true in Hw as [repositoryPath Hw].
    exists (validated h (Part000.resolveDirectories h repositoryPath (directories h))).
    split_and!; [done | apply quiet_validated |].
    unfold Part000.run, try_catch. rewrite Part000_body_eq, Hin.
    unfold scanAndReport, searchRoots. rewrite Hw. cbn zeta.
    destruct (Spec.requestSet _) as [|c cs]; [done |]. injection Hr as <-. done.
Qed.

(** The mapping, the files read and the failure signal of such a run, in
    terms of the depth-first list of visits. *)
Lemma run_of_visits v h r :
  reachesValidation v h = true ->
  Spec.requestSet (JS.trim (INPUT h "components")) <> [] ->
  fileNameRegex_of v h = Return r ->
  let wanted := wanted_of v (Spec.requestSet (JS.trim (INPUT h "components"))) h in
  let vs := Spec.visitsRoots h r (searchRoots v h) in
  let c := Spec.collect yaml_parse h wanted vs ∅ in
  componentMap (run_of v h) = snd c /\
  reads (run_of v h) = flat_map Spec.readOf (Spec.attempted yaml_parse vs) /\
  match fst c with
  | Return _ =>
      exists evs,
        trace (run_of v h) = evs ++ notFoundWarnings wanted /\
        Forall (fun e => is_setFailed e = false) evs
  | Throw e =>
      exists evs,
        trace (run_of v h) = evs ++ [setFailed e] /\
        Forall (fun e => is_setFailed e = false) evs
  end.
Proof.
  intros Hv Hne Hr wanted vs c.
  destruct (run_of_scan v h r Hv Hne Hr) as (st0 & Hm & Hq & ->).
  unfold scanAndReport. fold wanted.
  pose proof (refines_roots yaml_parse h (logChecks_of v) r wanted (searchRoots v h) st0)
    as (Ho & Hmap & Hreads).
  pose proof (emits_roots yaml_parse h (logChecks_of v) r wanted false (searchRoots v h))
    as He.
  destruct (He ltac:(discriminate) st0) as (evs & Et & Fe).
  fold vs in Ho, Hmap, Hreads. rewrite Hm in Ho, Hmap. fold c in Ho, Hmap.
  assert (Hr0 : reads st0 = []) by (by apply quiet_not_read).
  assert (Fq : Forall (fun e => is_setFailed e = false) (trace st0 ++ evs)).
  { apply Forall_app. split.
    - eapply Forall_impl; [exact Hq | by intros e [_ ?]].
    - eapply Forall_impl; [exact Fe | by intros []]. }
  unfold bind.
  destruct (for_of (searchRoots v h) _ st0) as [[[]|e] st1]; simpl in *.
  - rewrite warnNotFound_eq. simpl. rewrite <- Ho. split_and!; [done | |].
    + unfold reads in *. simpl.
      by rewrite filter_app, notFoundWarnings_not_read, Hreads, Hr0, app_nil_r.
    + exists (trace st0 ++ evs). by rewrite Et.
  - rewrite <- Ho. split_and!; [done | |].
    + unfold reads in *. simpl. rewrite filter_app, Hreads, Hr0. simpl.
      by rewrite app_nil_r.
    + exists (trace st0 ++ evs). by rewrite Et.
Qed.

End Runs.

(** * The claims *)

(** ** Specifier Normalizer *)

(** C5. Step 1 never aborts; it returns, in order and with duplicates, the
    canonical form of exactly the tokens that pass the validation pattern,
    and writes one diagnostic per token (an error line for each token that
    fails the pattern). The canonical form of a token with a colon is its
    name and version split on the first colon; that of a token without a
    colon is the token followed by [:latest]. *)
Theorem normalizer_canonical (components : list string) (st : state) :
  validate components [] st =
    (Return (map Spec.canonical
               (filter (fun token => test validComponentRegex token = true)
                       components)),
     with_trace st (map Spec.diagnostic components)) /\
  (forall token,
      Spec.canonical token =
      if JS.contains ":" token
      then Spec.before ":" token +:+ ":" +:+ Spec.after ":" token
      else token +:+ ":latest").
Proof.
  split; [by rewrite validate_spec |].
  intros token. unfold Spec.canonical, Spec.name, Spec.version.
  destruct (JS.contains ":" token) eqn:C; [done | by rewrite before_no_sep].
Qed.

(** A token the pattern accepts that has a colon is its own canonical
    form. *)
Lemma canonical_versioned token :
  test validComponentRegex token = true -> JS.contains ":" token = true ->
  Spec.canonical token = token.
Proof.
  intros V C. destruct (valid_split token V) as [[C' _] | (_ & _ & E)]; [congruence |].
  unfold Spec.canonical, Spec.name, Spec.version. by rewrite C.
Qed.

(** Every element of the RequestSet is a name, a colon and a version. *)
Lemma requestSet_shape raw c :
  c ∈ Spec.requestSet raw ->
  exists n v, c = n +:+ String ":" v /\ Spec.word n /\ v <> "" /\
              JS.contains ":" n = false.
Proof.
  unfold Spec.requestSet. intros H. apply list_elem_of_fmap in H as (token & -> & H).
  apply list_elem_of_filter in H as [V _].
  unfold Spec.canonical, Spec.name, Spec.version.
  apply valid_iff in V as [[Hne Hw] | (n & v & -> & [Hne Hn] & [Hv _])].
  - pose proof (word_no_colon _ Hw) as C. rewrite C, before_no_sep by done.
    exists token, "latest". by split_and!.
  - pose proof (word_no_colon _ Hn) as C.
    rewrite contains_append, before_append, after_append by done.
    simpl. rewrite orb_true_r. exists n, v. by split_and!.
Qed.

(** A run that reaches step 1 and is left with no valid specifier. *)
Lemma run_of_no_valid yaml_parse RegExp_new (v : variant) (h : Host) :
  reachesValidation v h = true ->
  Spec.requestSet (JS.trim (INPUT h "components")) = [] ->
  (exists evs,
      trace (run_of yaml_parse RegExp_new v h) =
        evs ++ [setFailed "No valid components provided to search for."] /\
      Forall quiet evs) /\
  componentMap (run_of yaml_parse RegExp_new v h) = ∅.
Proof.
  unfold reachesValidation. intros Hv He.
  apply andb_true_iff in Hv as [Hin Hw]. apply negb_true_iff in Hin.
  destruct v; simpl.
  - unfold Main.run, try_catch. rewrite Main_body_eq, Hin, He.
    split; [| done]. exists (trace (validated h (directories h))).
    split; [done | apply quiet_validated].
  - apply bool_decide_eq_true in Hw as [repositoryPath Hw].
    unfold Part000.run, try_catch. rewrite Part000_body_eq, Hin, Hw. cbn zeta.
    rewrite He. split; [| done].
    exists (trace (validated h (Part000.resolveDirectories h repositoryPath (directories h)))).
    split; [done | apply quiet_validated].
Qed.

(** The early exits. *)
Lemma run_of_not_supplied yaml_parse RegExp_new v h :
  INPUT h "components" = "" ->
  trace (run_of yaml_parse RegExp_new v h) =
  [setFailed "Input required and not supplied: components"].
Proof.
  intros H. destruct v; simpl.
  - unfold Main.run, try_catch. by rewrite Main_body_eq, H.
  - unfold Part000.run, try_catch. by rewrite Part000_body_eq, H.
Qed.

Lemma run_of_no_repository yaml_parse h :
  INPUT h "components" <> "" -> GITHUB_WORKSPACE h = None ->
  trace (Part000.run yaml_parse h) = [setFailed "No repository path found."].
Proof.
  intros Hin Hw. apply String.eqb_neq in Hin.
  unfold Part000.run, try_catch. by rewrite Part000_body_eq, Hin, Hw.
Qed.

(** The mapping of a run that does not reach the scanner is empty. *)
Lemma run_of_stopped yaml_parse RegExp_new v h :
  reachesValidation v h = false -> componentMap (run_of yaml_parse RegExp_new v h) = ∅.
Proof.
  unfold reachesValidation. intros Hv. apply andb_false_iff in Hv as [Hin | Hw].
  - apply negb_false_iff in Hin. destruct v; simpl.
    + unfold Main.run, try_catch. by rewrite Main_body_eq, Hin.
    + unfold Part000.run, try_catch. by rewrite Part000_body_eq, Hin.
  - destruct v; [discriminate |]. apply bool_decide_eq_false in Hw.
    simpl. unfold Part000.run, try_catch. rewrite Part000_body_eq.
    destruct (String.eqb _ ""); [done |].
    destruct (GITHUB_WORKSPACE h); [| done]. by destruct Hw.
Qed.

Lemma run_of_unscanned yaml_parse RegExp_new v h :
  reachesValidation v h = false \/
  Spec.requestSet (JS.trim (INPUT h "components")) = [] ->
  componentMap (run_of yaml_parse RegExp_new v h) = ∅.
Proof.
  intros [Hv | He]; [by apply run_of_stopped |].
  destruct (reachesValidation v h) eqn:Hv;
    [by apply run_of_no_valid | by apply run_of_stopped].
Qed.

Lemma run_of_stopped_trace yaml_parse RegExp_new v h :
  reachesValidation v h = false ->
  exists message, trace (run_of yaml_parse RegExp_new v h) = [setFailed message].
Proof.
  unfold reachesValidation. intros Hv.
  destruct (String.eqb_spec (INPUT h "components") "") as [E | E].
  - eexists. by apply run_of_not_supplied.
  - simpl in Hv. destruct v; [discriminate |]. apply bool_decide_eq_false in Hv.
    destruct (GITHUB_WORKSPACE h) eqn:W; [by destruct Hv |].
    eexists. simpl. by apply run_of_no_repository.
Qed.

(** C6. When the request set is empty the run ends with one failure signal,
    having made no file-system call, and the mapping stays empty; whenever
    step 1 is reached (the [components] input is supplied and, in the
    variant that requires it, the repository root is set), that signal is
    [No valid components provided to search for.]. *)
Theorem no_valid_components_no_scan yaml_parse RegExp_new (v : variant) (h : Host) :
  Spec.requestSet (JS.trim (INPUT h "components")) = [] ->
  (exists evs message,
      trace (run_of yaml_parse RegExp_new v h) = evs ++ [setFailed message] /\
      Forall quiet evs /\
      (reachesValidation v h = true ->
       message = "No valid components provided to search for.")) /\
  componentMap (run_of yaml_parse RegExp_new v h) = ∅.
Proof.
  intros He. split; [| apply run_of_unscanned; by right].
  destruct (reachesValidation v h) eqn:Hv.
  - destruct (run_of_no_valid yaml_parse RegExp_new v h Hv He) as [(evs & Ht & Hq) _].
    by exists evs, "No valid components provided to search for.".
  - destruct (run_of_stopped_trace yaml_parse RegExp_new v h Hv) as (message & Ht).
    exists [], message. by rewrite Ht.
Qed.

Lemma no_valid_components_no_scan_witness :
  (exists evs message,
      trace (run_of Sample.yaml_parse Sample.RegExp_new part_000 Sample.bad_name) =
        evs ++ [setFailed message] /\
      Forall quiet evs /\
      (reachesValidation part_000 Sample.bad_name = true ->
       message = "No valid components provided to search for.")) /\
  componentMap (run_of Sample.yaml_parse Sample.RegExp_new part_000 Sample.bad_name) = ∅.
Proof.
  apply (no_valid_components_no_scan Sample.yaml_parse Sample.RegExp_new part_000
           Sample.bad_name).
  reflexivity.
Defined.

(** ** The guard on an empty token list *)

Lemma catch_extends (m : M unit) st :
  emits (fun _ => True) m -> exists evs, trace (catch (m st)) = trace st ++ evs.
Proof.
  intros H. destruct (H st) as (evs & E & _). unfold catch.
  destruct (m st) as [[[]|e] st']; simpl in *.
  - by exists evs.
  - exists (evs ++ [setFailed e]). by rewrite E, app_assoc.
Qed.

Lemma emits_scanAndReport yaml_parse v h r newComponents :
  emits (fun _ => True) (scanAndReport yaml_parse v h r newComponents).
Proof.
  unfold scanAndReport. apply emits_bind.
  - eapply emits_impl; [| apply (emits_roots _ _ _ _ _ false); discriminate]. done.
  - intros _ st. rewrite warnNotFound_eq. eexists. split; [done |].
    by apply Forall_forall.
Qed.

(** Past the two early exits, the trace of a run opens with the
    announcement. *)
Lemma run_of_announces yaml_parse RegExp_new v h :
  reachesValidation v h = true ->
  exists message evs, trace (run_of yaml_parse RegExp_new v h) = info message :: evs.
Proof.
  unfold reachesValidation. intros Hv.
  apply andb_true_iff in Hv as [Hin Hw]. apply negb_true_iff in Hin.
  destruct v; simpl.
  - unfold Main.run, try_catch. rewrite Main_body_eq, Hin.
    destruct (Spec.requestSet _) as [|c cs]; [by eexists _, _ |].
    destruct (RegExp_new _) as [r|e]; [| by eexists _, _].
    destruct (catch_extends
                (scanAndReport yaml_parse main_ts h r (c :: cs))
                (validated h (directories h))) as (evs & E);
      [apply emits_scanAndReport |].
    unfold scanAndReport in E. simpl in E. simpl. rewrite E. by eexists _, _.
  - apply bool_decide_eq_true in Hw as [repositoryPath Hw].
    unfold Part000.run, try_catch. rewrite Part000_body_eq, Hin, Hw. cbn zeta.
    destruct (Spec.requestSet _) as [|c cs] eqn:R; [by eexists _, _ |].
    destruct (catch_extends
                (scanAndReport yaml_parse part_000 h
                   Part000.defaultComponentFileNameRegex (c :: cs))
                (validated h (Part000.resolveDirectories h repositoryPath (directories h))))
      as (evs & E); [apply emits_scanAndReport |].
    unfold scanAndReport, searchRoots in E. rewrite Hw in E. simpl in E.
    simpl. rewrite E. by eexists _, _.
Qed.

(** C10, as amended. Splitting on a comma never yields an empty list, so
    the token list is never empty and no run has the trace of the guard
    [No components provided to search for.]. A [components] input that is
    empty or all white space ends the run with one failure signal and no
    file-system call: the required-input failure when the input is empty;
    otherwise [No valid components provided to search for.], except that the
    variant that requires a repository root fails before that with [No
    repository path found.] when no root is set. *)
Theorem guard_never_triggers yaml_parse RegExp_new (v : variant) (h : Host) :
  (forall s, length (JS.split "," s) <> 0) /\
  length (tokens h) <> 0 /\
  trace (run_of yaml_parse RegExp_new v h) <>
    [setFailed "No components provided to search for."] /\
  (JS.trim (INPUT h "components") = "" ->
   exists evs,
     trace (run_of yaml_parse RegExp_new v h) = evs ++ [setFailed (blankFailure v h)] /\
     Forall quiet evs).
Proof.
  split_and!.
  - intros s. pose proof (split_length_pos "," s). lia.
  - unfold tokens. rewrite length_map.
    pose proof (split_length_pos "," (JS.trim (INPUT h "components"))). lia.
  - destruct (String.eqb_spec (INPUT h "components") "") as [E|E].
    + by rewrite run_of_not_supplied.
    + destruct (reachesValidation v h) eqn:R.
      * destruct (run_of_announces yaml_parse RegExp_new v h R) as (message & evs & ->).
        discriminate.
      * unfold reachesValidation in R. apply String.eqb_neq in E. rewrite E in R.
        destruct v; [discriminate |]. simpl in R.
        apply bool_decide_eq_false in R.
        destruct (GITHUB_WORKSPACE h) eqn:W; [by destruct R |].
        simpl. rewrite run_of_no_repository; [discriminate | | done].
        by apply String.eqb_neq.
  - intros Hb. unfold blankFailure.
    destruct (String.eqb_spec (INPUT h "components") "") as [E|E].
    + exists []. by rewrite run_of_not_supplied.
    + assert (He : Spec.requestSet (JS.trim (INPUT h "components")) = [])
        by (by rewrite Hb).
      destruct (reachesValidation v h) eqn:R.
      * destruct (run_of_no_valid yaml_parse RegExp_new v h R He) as [(evs & Ht & Hq) _].
        exists evs. split; [| done]. rewrite Ht.
        unfold reachesValidation in R. apply andb_true_iff in R as [_ R].
        destruct v; [done |]. apply bool_decide_eq_true in R as [? ->]. done.
      * unfold reachesValidation in R. apply String.eqb_neq in E. rewrite E in R.
        destruct v; [discriminate |]. simpl in R.
        apply bool_decide_eq_false in R.
        destruct (GITHUB_WORKSPACE h) eqn:W; [by destruct R |].
        exists []. simpl. rewrite run_of_no_repository; [done | | done].
        by apply String.eqb_neq.
Qed.

Lemma guard_never_triggers_witness :
  exists evs,
    trace (run_of Sample.yaml_parse Sample.RegExp_new main_ts Sample.blank) =
      evs ++ [setFailed "No valid components provided to search for."] /\
    Forall quiet evs.
Proof.
  apply (guard_never_triggers Sample.yaml_parse Sample.RegExp_new main_ts Sample.blank).
  reflexivity.
Defined.

(** C10 as stated fails in the variant that requires a repository root: a
    [components] input of one space, with no root set, ends in neither of
    the two failures the claim names. *)
Lemma blank_input_without_workspace :
  JS.trim (INPUT Sample.blank_no_workspace "components") = "" /\
  trace (Part000.run Sample.yaml_parse Sample.blank_no_workspace) =
    [setFailed "No repository path found."] /\
  ~ (setFailed "Input required and not supplied: components"
       ∈ trace (Part000.run Sample.yaml_parse Sample.blank_no_workspace) \/
     setFailed "No valid components provided to search for."
       ∈ trace (Part000.run Sample.yaml_parse Sample.blank_no_workspace)).
Proof.
  assert (E : trace (Part000.run Sample.yaml_parse Sample.blank_no_workspace) =
              [setFailed "No repository path found."]) by reflexivity.
  split_and!; [reflexivity | exact E |].
  rewrite E. intros [H|H]; apply list_elem_of_singleton in H; discriminate.
Qed.

(** ** The report of unfound specifiers *)

Lemma includes_false xs y : Forall (fun x => x <> y) xs -> JS.includes xs y = false.
Proof.
  unfold JS.includes. induction 1 as [|x xs Hx _ IH]; simpl; [done |].
  rewrite IH, orb_false_r. apply String.eqb_neq. congruence.
Qed.

Lemma filter_all {A} (P : A -> Prop) `{!forall x, Decision (P x)} (l : list A) :
  Forall P l -> filter P l = l.
Proof.
  induction 1 as [|x l Hx _ IH]; [done |]. by rewrite filter_cons_True, IH.
Qed.

(** In the variant whose last loop runs over the normalized list, every
    requested specifier gets its warning, found or not: the name of a
    specifier has no colon, every element of the list has one. *)
Lemma part_000_warns_every_specifier raw :
  notFoundWarnings (Spec.requestSet raw) =
  map (fun c => warning ("Component " +:+ Spec.before ":" c +:+ " not found"))
      (Spec.requestSet raw).
Proof.
  unfold notFoundWarnings. rewrite filter_all.
  - rewrite <- list_fmap_compose. apply list_fmap_ext. intros _ c _. simpl.
    by rewrite split_head.
  - apply Forall_forall. intros n Hn. apply negb_true_iff, includes_false.
    apply list_elem_of_fmap in Hn as (c & -> & _). rewrite split_head.
    apply Forall_forall. intros c' Hc' ->.
    apply requestSet_shape in Hc' as (n & v & E & _ & _ & C).
    pose proof (before_contains ":" c) as B. rewrite E in B.
    rewrite contains_append in B. simpl in B. by rewrite orb_true_r in B.
Qed.

(** C1, on its failing inputs. With [foo] requested and a manifest that
    declares [foo], the variant over the normalized list records the match
    and still warns that [foo] was not found; with [foo] requested and no
    manifest at all, [src/main.ts] records nothing and warns of nothing. *)
Theorem not_found_report_ignores_matches :
  componentMap (Part000.run Sample.yaml_parse Sample.found_foo) !! "foo:latest"
    = Some "/repo/.component.yml" /\
  warning "Component foo not found"
    ∈ trace (Part000.run Sample.yaml_parse Sample.found_foo) /\
  componentMap (Main.run Sample.yaml_parse Sample.RegExp_new Sample.missing_foo) = ∅ /\
  trace (Main.run Sample.yaml_parse Sample.RegExp_new Sample.missing_foo) =
    [info "Finding components: foo in directories: /repo";
     console_log "Component: foo, Version: latest";
     existsSync "/repo"; readdirSync "/repo"].
Proof.
  split_and!; [reflexivity | | reflexivity | reflexivity].
  assert (E : trace (Part000.run Sample.yaml_parse Sample.found_foo) =
    [info "Finding components: foo in directories: /repo";
     console_log "Component: foo, Version: latest";
     existsSync "/repo"; readdirSync "/repo";
     statSync "/repo/component.yml";
     console_log "Checking file: /repo/component.yml";
     statSync "/repo/.component.yml";
     console_log "Checking file: /repo/.component.yml";
     readFileSync "/repo/.component.yml";
     warning "Component foo not found"]) by reflexivity.
  rewrite E. repeat constructor.
Qed.

(** ** The keys of the mapping *)

(** C2, on its failing input. With the one token [foo], whose canonical
    form is [foo:latest], [src/main.ts] files the match under the raw token
    [foo] and has no entry for [foo:latest]; the sibling variant files it
    under [foo:latest]. *)
Theorem main_ts_keys_are_raw_tokens :
  Spec.requestSet (JS.trim (INPUT Sample.found_foo "components")) = ["foo:latest"] /\
  componentMap (Main.run Sample.yaml_parse Sample.RegExp_new Sample.found_foo) !! "foo"
    = Some "/repo/component.yml" /\
  componentMap (Main.run Sample.yaml_parse Sample.RegExp_new Sample.found_foo) !! "foo:latest"
    = None /\
  componentMap (Part000.run Sample.yaml_parse Sample.found_foo) !! "foo:latest"
    = Some "/repo/.component.yml".
Proof. by split_and!. Qed.

(** ** Last write wins *)

(** C7, on its failing inputs. Two manifests declare the requested name, in
    [/repo/a] and then in [/repo/b]. In [src/main.ts], a token [foo] leaves
    the specifier [foo:latest] without an entry (the last path sits under
    the raw token), and a token [__proto__] leaves no entry at all; the
    sibling variant holds the path visited last under the canonical key in
    both cases. *)
Theorem main_ts_last_write_lost :
  Spec.visitsRoots Sample.two_proto componentFileNameRegex_plain
      (searchRoots main_ts Sample.two_proto) =
    [Spec.Manifest "/repo/a/component.yml" "component: __proto__";
     Spec.Manifest "/repo/b/component.yaml" "component: __proto__"] /\
  Spec.declares Sample.yaml_parse
    (Spec.Manifest "/repo/b/component.yaml" "component: __proto__") "__proto__" /\
  test validComponentRegex "__proto__" = true /\
  componentMap (Main.run Sample.yaml_parse Sample.RegExp_new Sample.two_proto) = ∅ /\
  componentMap (Part000.run Sample.yaml_parse Sample.two_proto) !! "__proto__:latest"
    = Some "/repo/b/.component.yaml" /\
  componentMap (Main.run Sample.yaml_parse Sample.RegExp_new Sample.two_foo) !! "foo:latest"
    = None /\
  componentMap (Main.run Sample.yaml_parse Sample.RegExp_new Sample.two_foo) !! "foo"
    = Some "/repo/b/component.yaml" /\
  componentMap (Part000.run Sample.yaml_parse Sample.two_foo) !! "foo:latest"
    = Some "/repo/b/.component.yaml".
Proof. by split_and!. Qed.

(** ** The mapping of a whole run *)

Section RunMapping.

Variable yaml_parse : string -> outcome yaml_value.
Variable RegExp_new : string -> outcome RegExp.

#[local] Abbreviation run_of := (run_of yaml_parse RegExp_new).
#[local] Abbreviation fileNameRegex_of := (fileNameRegex_of RegExp_new).
#[local] Abbreviation declares := (Spec.declares yaml_parse).

(** Last write wins, in both variants: when the scan runs to its end, a
    key of the list the scanner consults (other than [__proto__], which a
    plain object does not store) holds the absolute path of the last
    manifest, in depth-first order, that declares its name. *)
Lemma last_write_wins v h r vs1 m vs2 key :
  reachesValidation v h = true ->
  Spec.requestSet (JS.trim (INPUT h "components")) <> [] ->
  fileNameRegex_of v h = Return r ->
  Spec.visitsRoots h r (searchRoots v h) = vs1 ++ m :: vs2 ->
  fst (Spec.collect yaml_parse h
         (wanted_of v (Spec.requestSet (JS.trim (INPUT h "components"))) h)
         (vs1 ++ m :: vs2) ∅) = Return tt ->
  key ∈ wanted_of v (Spec.requestSet (JS.trim (INPUT h "components"))) h ->
  key <> "__proto__" ->
  declares m (JS.head_of_split ":" key) ->
  Forall (fun m' => ~ declares m' (JS.head_of_split ":" key)) vs2 ->
  componentMap (run_of v h) !! key = Some (Spec.absolutePath h m).
Proof.
  intros Hv Hne Hr Hvs Hc Hk Hp Hm Hvs2.
  destruct (run_of_visits yaml_parse RegExp_new v h r Hv Hne Hr) as (-> & _ & _).
  rewrite Hvs.
  destruct (Spec.collect _ _ _ (vs1 ++ m :: vs2) ∅) as [o m'] eqn:E.
  simpl in Hc. subst o. simpl. by eapply collect_last.
Qed.

(** In the variant that consults the normalized list no key is
    [__proto__]: every key has a colon. *)
Lemma requestSet_not_proto raw key : key ∈ Spec.requestSet raw -> key <> "__proto__".
Proof.
  intros H ->. apply requestSet_shape in H as (n & v & E & _ & _ & _).
  assert (C : JS.contains ":" "__proto__" = true)
    by (rewrite E, contains_append; simpl; apply orb_true_r).
  discriminate.
Qed.

(** A specifier whose name no visited manifest declares has no entry. *)
Lemma unmatched_absent v h r key :
  reachesValidation v h = true ->
  Spec.requestSet (JS.trim (INPUT h "components")) <> [] ->
  fileNameRegex_of v h = Return r ->
  Forall (fun m => ~ declares m (JS.head_of_split ":" key))
         (Spec.visitsRoots h r (searchRoots v h)) ->
  componentMap (run_of v h) !! key = None.
Proof.
  intros Hv Hne Hr Hvs.
  destruct (run_of_visits yaml_parse RegExp_new v h r Hv Hne Hr) as (-> & _ & _).
  by apply collect_none.
Qed.

End RunMapping.

(** ** The invariant of the scan *)

Lemma in_order_justified yaml_parse h wanted vs st :
  Path.isAbsolute (cwd h) = true -> grounded h vs ->
  mapping_in_order yaml_parse h wanted vs st <->
  justified yaml_parse h wanted vs (componentMap st).
Proof.
  intros Ha Hg. split; intros H key value E; destruct (H key value E) as (Hk & Hrest).
  - split; [done |]. destruct Hrest as (_ & filePath & content & ? & ? & _ & ?).
    by exists filePath, content.
  - destruct Hrest as (filePath & content & Hin & -> & Hd).
    split_and!; [done | by apply isAbsolute_resolve |]. exists filePath, content.
    split_and!; [done | done | | done].
    apply FsFacts.lookup_resolve; [done | by apply Hg].
Qed.

Lemma refines_keeps_in_order yaml_parse h wanted all vs m :
  Path.isAbsolute (cwd h) = true -> grounded h all ->
  refines yaml_parse h wanted m vs -> vs ⊆ all ->
  keeps_in_order yaml_parse h wanted all m.
Proof.
  intros Ha Hg Hr Hsub st Hst. destruct (Hr st) as (_ & Hm & _).
  apply in_order_justified; [done | done |]. rewrite Hm.
  apply justified_collect; [done |]. by apply in_order_justified.
Qed.

Lemma visitsRoot_subseteq h r dir dirs :
  dir ∈ dirs -> Spec.visitsRoot h r dir ⊆ Spec.visitsRoots h r dirs.
Proof.
  intros Hd m Hm. unfold Spec.visitsRoots. apply list_elem_of_In, in_flat_map.
  exists dir. by split; apply list_elem_of_In.
Qed.

(** C9. In a process whose working directory is absolute, on a file system
    whose directories list valid names once each, the mapping is in order
    when the run ends, and every operation of the scanner keeps it in
    order from any state and whatever its outcome: the scan of one search
    root, the scan of all of them, and the reading of one manifest met by
    the traversal. *)
Theorem scan_invariant yaml_parse RegExp_new (v : variant) (h : Host) (r : RegExp) :
  Path.isAbsolute (cwd h) = true ->
  Fs.wellFormed (root h) = true ->
  fileNameRegex_of RegExp_new v h = Return r ->
  let wanted := wanted_of v (Spec.requestSet (JS.trim (INPUT h "components"))) h in
  let vs := Spec.visitsRoots h r (searchRoots v h) in
  mapping_in_order yaml_parse h wanted vs initial /\
  mapping_in_order yaml_parse h wanted vs (run_of yaml_parse RegExp_new v h) /\
  keeps_in_order yaml_parse h wanted vs
    (for_of (searchRoots v h)
       (searchForComponent yaml_parse h (logChecks_of v) r wanted)) /\
  (forall dir, dir ∈ searchRoots v h ->
     keeps_in_order yaml_parse h wanted vs
       (searchForComponent yaml_parse h (logChecks_of v) r wanted dir)) /\
  (forall filePath content, Spec.Manifest filePath content ∈ vs ->
     keeps_in_order yaml_parse h wanted vs
       (readManifest yaml_parse h wanted filePath content)).
Proof.
  intros Ha Hwf Hr wanted vs.
  assert (Hg : grounded h vs)
    by (intros filePath content; by apply FsFacts.visitsRoots_at_their_paths).
  split_and!.
  - intros key value H. simpl in H. by rewrite lookup_empty in H.
  - apply in_order_justified; [done | done |].
    destruct (reachesValidation v h) eqn:Hv;
      [| rewrite run_of_unscanned by auto; apply justified_empty].
    destruct (Spec.requestSet (JS.trim (INPUT h "components"))) as [|c cs] eqn:Hreq;
      [rewrite run_of_unscanned by auto; apply justified_empty |].
    assert (Hne : Spec.requestSet (JS.trim (INPUT h "components")) <> [])
      by (by rewrite Hreq).
    destruct (run_of_visits yaml_parse RegExp_new v h r Hv Hne Hr) as (Hm & _ & _).
    rewrite Hm, Hreq. apply justified_collect; [done | apply justified_empty].
  - eapply refines_keeps_in_order; [done | done | apply refines_roots | done].
  - intros dir Hd. eapply refines_keeps_in_order;
      [done | done | apply refines_searchForComponent | by apply visitsRoot_subseteq].
  - intros filePath content Hin. eapply refines_keeps_in_order;
      [done | done | apply refines_readManifest |].
    intros m Hm. by apply list_elem_of_singleton in Hm as ->.
Qed.

Lemma scan_invariant_witness :
  mapping_in_order Sample.yaml_parse Sample.two_foo ["foo:latest"]
    (Spec.visitsRoots Sample.two_foo componentFileNameRegex_hidden ["/repo"])
    (run_of Sample.yaml_parse Sample.RegExp_new part_000 Sample.two_foo).
Proof.
  exact (proj1 (proj2 (scan_invariant Sample.yaml_parse Sample.RegExp_new part_000
                         Sample.two_foo componentFileNameRegex_hidden
                         eq_refl eq_refl eq_refl))).
Defined.

(** ** The manifest pattern *)

Lemma test_plain file :
  test componentFileNameRegex_plain file = true <->
  file = "component.yml" \/ file = "component.yaml".
Proof.
  change (test componentFileNameRegex_plain file)
    with (Re.matches component_yaml_re file).
  rewrite ReFacts.matches_lang. unfold component_yaml_re, Re.Opt. split.
  - intros H. apply ReFacts.lang_cat_inv in H as (s1 & s23 & -> & H1 & H23).
    apply ReFacts.lang_lits in H1 as ->.
    apply ReFacts.lang_cat_inv in H23 as (s2 & s3 & -> & H2 & H3).
    apply ReFacts.lang_lits in H3 as ->.
    apply ReFacts.lang_alt_inv in H2 as [Ha | He].
    + apply ReFacts.lang_lit in Ha as ->. by right.
    + apply ReFacts.lang_eps_inv in He as ->. by left.
  - intros [-> | ->].
    + change "component.yml" with ("component.y" +:+ ("" +:+ "ml")).
      constructor; [by apply ReFacts.lang_lits |].
      constructor; [apply Re.lang_alt_r; constructor | by apply ReFacts.lang_lits].
    + change "component.yaml" with ("component.y" +:+ ("a" +:+ "ml")).
      constructor; [by apply ReFacts.lang_lits |].
      constructor; [apply Re.lang_alt_l; by apply ReFacts.lang_lit
                   | by apply ReFacts.lang_lits].
Qed.

Lemma test_hidden file :
  test componentFileNameRegex_hidden file = true <->
  file = ".component.yml" \/ file = ".component.yaml".
Proof.
  change (test componentFileNameRegex_hidden file)
    with (Re.matches (Re.Cat (Re.Lit ".") component_yaml_re) file).
  rewrite ReFacts.matches_lang. split.
  - intros H. apply ReFacts.lang_cat_inv in H as (s1 & s2 & -> & H1 & H2).
    apply ReFacts.lang_lit in H1 as ->.
    apply ReFacts.matches_lang, test_plain in H2 as [-> | ->]; auto.
  - intros H.
    assert (E : exists rest, file = "." +:+ rest /\
                             (rest = "component.yml" \/ rest = "component.yaml"))
      by (destruct H as [-> | ->]; eexists; eauto).
    destruct E as (rest & -> & Hrest).
    constructor; [by apply ReFacts.lang_lit |].
    by apply ReFacts.matches_lang, test_plain.
Qed.

(** C3, as amended. In a run that reaches the scanner, the files read are
    the manifests the traversal selects with the pattern of the variant, up
    to the first that fails. In [src/main.ts] that pattern is compiled from
    the configured text when one is given and from the text of the default
    [^component\.ya?ml$] otherwise; in the sibling variant it is always the
    built-in [^\.component\.ya?ml$], and the run is the same whatever the
    configuration value. The two defaults select the base names [component.yml] and
    [component.yaml], respectively [.component.yml] and
    [.component.yaml]. *)
Theorem manifest_pattern yaml_parse RegExp_new (v : variant) (h : Host) (r : RegExp) :
  reachesValidation v h = true ->
  Spec.requestSet (JS.trim (INPUT h "components")) <> [] ->
  fileNameRegex_of RegExp_new v h = Return r ->
  reads (run_of yaml_parse RegExp_new v h) =
    flat_map Spec.readOf
      (Spec.attempted yaml_parse (Spec.visitsRoots h r (searchRoots v h))) /\
  fileNameRegex_of RegExp_new main_ts h =
    RegExp_new (if String.eqb (JS.trim (INPUT h "component-file-name-regex")) ""
                then "^component\.ya?ml$"
                else JS.trim (INPUT h "component-file-name-regex")) /\
  fileNameRegex_of RegExp_new part_000 h = Return componentFileNameRegex_hidden /\
  (forall pattern,
      Part000.run yaml_parse (with_pattern pattern h) = Part000.run yaml_parse h) /\
  (forall file, test componentFileNameRegex_plain file = true <->
                file = "component.yml" \/ file = "component.yaml") /\
  (forall file, test componentFileNameRegex_hidden file = true <->
                file = ".component.yml" \/ file = ".component.yaml").
Proof.
  intros Hv Hne Hr.
  split_and!; [| done | done | done | apply test_plain | apply test_hidden].
  by destruct (run_of_visits yaml_parse RegExp_new v h r Hv Hne Hr) as (_ & ? & _).
Qed.

Lemma manifest_pattern_witness :
  reads (run_of Sample.yaml_parse Sample.RegExp_new main_ts Sample.configured) =
    flat_map Spec.readOf
      (Spec.attempted Sample.yaml_parse
         (Spec.visitsRoots Sample.configured Sample.manifest_yml
            (searchRoots main_ts Sample.configured))).
Proof.
  apply (manifest_pattern Sample.yaml_parse Sample.RegExp_new main_ts Sample.configured
           Sample.manifest_yml); [reflexivity | discriminate | reflexivity].
Defined.

(** C3 as stated fails in the sibling variant: with the pattern
    [^manifest\.yml$] configured, it skips [manifest.yml], which the
    configured pattern selects, and reads [.component.yml], which the
    configured pattern does not select; [src/main.ts] does the opposite. *)
Lemma configured_pattern_ignored :
  getInput Sample.configured "component-file-name-regex" false = Return "^manifest\.yml$" /\
  Sample.RegExp_new "^manifest\.yml$" = Return Sample.manifest_yml /\
  test Sample.manifest_yml "manifest.yml" = true /\
  test Sample.manifest_yml ".component.yml" = false /\
  reads (Part000.run Sample.yaml_parse Sample.configured) =
    [readFileSync "/repo/.component.yml"] /\
  reads (Main.run Sample.yaml_parse Sample.RegExp_new Sample.configured) =
    [readFileSync "/repo/manifest.yml"].
Proof. by split_and!. Qed.

(** ** Manifests that cannot be used *)

Section BadManifests.

Variable yaml_parse : string -> outcome yaml_value.
Variable host : Host.
Variable wanted : list string.

#[local] Abbreviation declared := (Spec.declared yaml_parse).
#[local] Abbreviation collect := (Spec.collect yaml_parse host wanted).
#[local] Abbreviation attempted := (Spec.attempted yaml_parse).
#[local] Abbreviation usable := (usable yaml_parse).

Lemma attempted_usable vs : Forall usable vs -> attempted vs = vs.
Proof.
  induction 1 as [|m vs [component Hm] _ IH]; simpl; [done |]. by rewrite Hm, IH.
Qed.

Lemma collect_usable vs : forall m, Forall usable vs -> fst (collect vs m) = Return tt.
Proof.
  induction vs as [|u vs IH]; intros m H; simpl; [done |].
  apply Forall_cons in H as [[component Hu] Hvs]. rewrite Hu. by apply IH.
Qed.

Lemma attempted_first_failure pre m0 post e :
  Forall usable pre -> declared m0 = Throw e ->
  attempted (pre ++ m0 :: post) = pre ++ [m0].
Proof.
  intros Hpre Hm0. induction Hpre as [|u pre [component Hu] _ IH]; simpl.
  - by rewrite Hm0.
  - by rewrite Hu, IH.
Qed.

Lemma collect_first_failure pre m0 post e m :
  Forall usable pre -> declared m0 = Throw e ->
  collect (pre ++ m0 :: post) m = (Throw e, snd (collect pre m)).
Proof.
  intros Hpre Hm0. rewrite collect_app. pose proof (collect_usable pre m Hpre) as Hc.
  destruct (collect pre m) as [[[]|e'] m']; [| discriminate]. simpl. by rewrite Hm0.
Qed.

(** Reading a manifest fails exactly when the parser throws or the
    document is [null]. *)
Lemma declared_throw filePath content e :
  declared (Spec.Manifest filePath content) = Throw e <->
  yaml_parse content = Throw e \/
  (yaml_parse content = Return YNull /\
   e = "Cannot read properties of null (reading 'component')").
Proof.
  simpl. destruct (yaml_parse content) as [doc|e'].
  - destruct doc; simpl; split; intros H;
      try discriminate; try (destruct H as [H | [H _]]; discriminate).
    + injection H as <-. by right.
    + by destruct H as [H | [_ ->]].
  - split; [intros [= ->]; by left | intros [[= ->] | [H _]]; [done | discriminate]].
Qed.

(** A document that is a mapping is usable, with or without the field. *)
Lemma declared_mapping filePath content fields :
  yaml_parse content = Return (YMap fields) ->
  declared (Spec.Manifest filePath content) = Return (field "component" fields).
Proof. simpl. by intros ->. Qed.

End BadManifests.

(** C4, as amended. When the first manifest, in traversal order, whose
    reading fails is [m0], the run ends there with the error of [m0] as its
    one failure signal: the manifests before [m0] and [m0] itself are the
    only files read, and the mapping is what the manifests before [m0]
    wrote. Reading a manifest fails exactly when the parser throws on its
    content or the document is [null]; a document that is a mapping
    without a [component] field is read without error and writes
    nothing. *)
Theorem abort_at_first_bad_manifest yaml_parse RegExp_new (v : variant) (h : Host)
    (r : RegExp) (pre post : list Spec.visit) (m0 : Spec.visit) (e : string) :
  reachesValidation v h = true ->
  Spec.requestSet (JS.trim (INPUT h "components")) <> [] ->
  fileNameRegex_of RegExp_new v h = Return r ->
  Spec.visitsRoots h r (searchRoots v h) = pre ++ m0 :: post ->
  Forall (usable yaml_parse) pre ->
  Spec.declared yaml_parse m0 = Throw e ->
  let wanted := wanted_of v (Spec.requestSet (JS.trim (INPUT h "components"))) h in
  (exists evs,
      trace (run_of yaml_parse RegExp_new v h) = evs ++ [setFailed e] /\
      Forall (fun e' => is_setFailed e' = false) evs) /\
  reads (run_of yaml_parse RegExp_new v h) = flat_map Spec.readOf (pre ++ [m0]) /\
  componentMap (run_of yaml_parse RegExp_new v h) =
    snd (Spec.collect yaml_parse h wanted pre ∅) /\
  (forall filePath content e',
      Spec.declared yaml_parse (Spec.Manifest filePath content) = Throw e' <->
      yaml_parse content = Throw e' \/
      (yaml_parse content = Return YNull /\
       e' = "Cannot read properties of null (reading 'component')")) /\
  (forall filePath content fields st,
      yaml_parse content = Return (YMap fields) ->
      field "component" fields = None ->
      readManifest yaml_parse h wanted filePath content st =
      (Return tt, with_trace st [readFileSync filePath])).
Proof.
  intros Hv Hne Hr Hvs Hpre Hm0 wanted.
  destruct (run_of_visits yaml_parse RegExp_new v h r Hv Hne Hr) as (Hm & Hreads & Ht).
  fold wanted in Hm, Ht. rewrite Hvs in Hm, Hreads, Ht.
  rewrite (collect_first_failure yaml_parse h wanted pre m0 post e ∅ Hpre Hm0) in Hm, Ht.
  rewrite (attempted_first_failure yaml_parse pre m0 post e Hpre Hm0) in Hreads.
  split_and!; [done | done | done | apply declared_throw |].
  intros filePath content fields st Hdoc Hfield.
  unfold readManifest. rewrite bind_emit, bind_lift, Hdoc, bind_lift. simpl.
  rewrite Hfield. clear. unfold wanted. generalize (with_trace st [readFileSync filePath]).
  generalize (wanted_of v (Spec.requestSet (JS.trim (INPUT h "components"))) h).
  intros ws. induction ws as [|w ws IH]; intros st'; [done |].
  cbn [for_of]. unfold bind, ret. simpl. apply IH.
Qed.

Lemma abort_at_first_bad_manifest_witness :
  (exists evs,
      trace (run_of Sample.yaml_parse Sample.RegExp_new part_000 Sample.malformed) =
        evs ++ [setFailed "YAMLParseError"] /\
      Forall (fun e' => is_setFailed e' = false) evs) /\
  reads (run_of Sample.yaml_parse Sample.RegExp_new part_000 Sample.malformed) =
    [readFileSync "/repo/.component.yml"].
Proof.
  pose proof (abort_at_first_bad_manifest Sample.yaml_parse Sample.RegExp_new part_000
                Sample.malformed componentFileNameRegex_hidden []
                [Spec.Manifest "/repo/sub/.component.yml" "component: foo"]
                (Spec.Manifest "/repo/.component.yml" "component: [") "YAMLParseError"
                eq_refl ltac:(discriminate) eq_refl eq_refl (Forall_nil_2 _) eq_refl)
    as (Ht & Hr & _).
  exact (conj Ht Hr).
Defined.

(** C4 as stated fails for the missing field: manifests of either spelling
    that hold [name: foo] and no [component] field do not end the run; the
    scan goes on to the manifests below [/repo/sub] and no failure is
    signalled. *)
Lemma missing_field_does_not_abort :
  Sample.yaml_parse "name: foo" = Return (YMap [("name", YString "foo")]) /\
  get_component (YMap [("name", YString "foo")]) = Return None /\
  reads (Main.run Sample.yaml_parse Sample.RegExp_new Sample.no_field) =
    [readFileSync "/repo/component.yml"; readFileSync "/repo/sub/component.yml"] /\
  reads (Part000.run Sample.yaml_parse Sample.no_field) =
    [readFileSync "/repo/.component.yml"; readFileSync "/repo/sub/.component.yml"] /\
  filter (fun e => is_setFailed e = true)
         (trace (Main.run Sample.yaml_parse Sample.RegExp_new Sample.no_field)) = [] /\
  filter (fun e => is_setFailed e = true)
         (trace (Part000.run Sample.yaml_parse Sample.no_field)) = [] /\
  componentMap (Part000.run Sample.yaml_parse Sample.no_field) !! "foo:latest" =
    Some "/repo/sub/.component.yml".
Proof. by split_and!. Qed.

(** ** Search roots *)

Lemma quiet_fs_absolute e : quiet e -> fs_absolute e.
Proof. intros [H _]. by destruct e. Qed.

Lemma catch_Forall (P : event -> Prop) (m : M unit) st :
  (forall e, P (setFailed e)) -> emits P m ->
  Forall P (trace st) -> Forall P (trace (catch (m st))).
Proof.
  intros Hf Hm Hst. destruct (Hm st) as (evs & E & F). unfold catch.
  destruct (m st) as [[[]|e] st']; simpl in *; rewrite E.
  - by apply Forall_app.
  - rewrite <- app_assoc. apply Forall_app. split; [done |].
    apply Forall_app. split; [done |]. by apply Forall_singleton.
Qed.

Lemma orCwd_absolute h dirs :
  Path.isAbsolute (cwd h) = true ->
  Forall (fun dir => Path.isAbsolute dir = true) dirs ->
  Forall (fun dir => Path.isAbsolute dir = true) (orCwd h dirs).
Proof.
  intros Ha Hd. unfold orCwd. destruct (length dirs =? 0); [| done].
  apply Forall_app. split; [done | by apply Forall_singleton].
Qed.

Lemma resolveDirectories_eq h repositoryPath dirs :
  Part000.resolveDirectories h repositoryPath dirs =
  map (fun dir => if Path.isAbsolute dir then dir
                  else Path.resolve (cwd h) [repositoryPath; dir]) dirs.
Proof.
  unfold Part000.resolveDirectories. destruct dirs as [|d dirs]; [done |].
  cbn [length Nat.ltb Nat.leb]. apply list_fmap_ext. intros _ dir _.
  by destruct (Path.isAbsolute dir).
Qed.

Lemma resolveDirectories_absolute h repositoryPath dirs :
  Path.isAbsolute (cwd h) = true ->
  Forall (fun dir => Path.isAbsolute dir = true)
         (Part000.resolveDirectories h repositoryPath dirs).
Proof.
  intros Ha. rewrite resolveDirectories_eq. apply Forall_map, Forall_forall.
  intros dir _. simpl. destruct (Path.isAbsolute dir) eqn:E; [done |].
  by apply isAbsolute_resolve.
Qed.

Lemma searchRoots_absolute h :
  Path.isAbsolute (cwd h) = true ->
  Forall (fun dir => Path.isAbsolute dir = true) (searchRoots part_000 h).
Proof.
  intros Ha. simpl. destruct (GITHUB_WORKSPACE h) as [repositoryPath|]; [| done].
  apply orCwd_absolute; [done | by apply resolveDirectories_absolute].
Qed.

Lemma directories_not_defaulted h : orCwd h (directories h) = directories h.
Proof. unfold orCwd, directories. by rewrite split_trim_length. Qed.

(** C8, as amended. In the variant that reads the repository root, and in a
    process whose working directory is absolute: every search root handed
    to the scanner is absolute, a supplied directory that is relative
    having been resolved against the repository root; every path the run
    hands to the file system is absolute; and the run fails with [No
    repository path found.] whenever the root is not set, whatever the
    search directories. [src/main.ts] does not read the repository root:
    its search roots are the supplied directories as they are, and its run
    is the same whatever the root. *)
Theorem search_roots_absolute yaml_parse RegExp_new (h : Host) :
  Path.isAbsolute (cwd h) = true ->
  Forall (fun dir => Path.isAbsolute dir = true) (searchRoots part_000 h) /\
  (forall repositoryPath, GITHUB_WORKSPACE h = Some repositoryPath ->
     searchRoots part_000 h =
     map (fun dir => if Path.isAbsolute dir then dir
                     else Path.resolve (cwd h) [repositoryPath; dir])
         (directories h)) /\
  Forall fs_absolute (trace (Part000.run yaml_parse h)) /\
  (INPUT h "components" <> "" -> GITHUB_WORKSPACE h = None ->
     trace (Part000.run yaml_parse h) = [setFailed "No repository path found."]) /\
  searchRoots main_ts h = directories h /\
  (forall workspace,
      Main.run yaml_parse RegExp_new (with_workspace workspace h) =
      Main.run yaml_parse RegExp_new h).
Proof.
  intros Ha. split_and!; [| | | | | done].
  - by apply searchRoots_absolute.
  - intros repositoryPath Hw. simpl. rewrite Hw, resolveDirectories_eq.
    unfold orCwd. rewrite length_map. unfold directories at 1.
    by rewrite split_trim_length.
  - pose proof (searchRoots_absolute h Ha) as Hroots.
    unfold Part000.run, try_catch. rewrite Part000_body_eq.
    destruct (String.eqb (INPUT h "components") "");
      [by apply Forall_singleton |].
    simpl in Hroots.
    destruct (GITHUB_WORKSPACE h) as [repositoryPath|]; [| by apply Forall_singleton].
    cbn zeta. destruct (Spec.requestSet _) as [|c cs].
    + simpl. apply Forall_cons. split; [done |]. apply Forall_app. split.
      * eapply Forall_impl; [apply quiet_diagnostics | apply quiet_fs_absolute].
      * by apply Forall_singleton.
    + apply catch_Forall; [done | |].
      * apply emits_bind.
        -- eapply emits_impl; [| apply (emits_roots _ _ _ _ _ true); by intros _].
           intros e He. destruct e; simpl in *; auto.
        -- intros _ st. rewrite warnNotFound_eq. eexists. split; [done |].
           unfold notFoundWarnings. by apply Forall_map, Forall_forall.
      * eapply Forall_impl; [apply quiet_validated | apply quiet_fs_absolute].
  - apply run_of_no_repository.
  - apply directories_not_defaulted.
Qed.

Lemma search_roots_absolute_witness :
  Forall (fun dir => Path.isAbsolute dir = true) (searchRoots part_000 Sample.relative) /\
  Forall fs_absolute (trace (Part000.run Sample.yaml_parse Sample.relative)).
Proof.
  pose proof (search_roots_absolute Sample.yaml_parse Sample.RegExp_new
                Sample.relative eq_refl)
    as (H1 & _ & H2 & _).
  exact (conj H1 H2).
Defined.

(** C8 as stated fails in [src/main.ts]: the relative search directory
    [sub] is handed to the scanner and to the file system as it is, whether
    a repository root is set or not, and the run does not fail when none
    is set. *)
Lemma main_ts_relative_root :
  searchRoots main_ts Sample.relative = ["sub"] /\
  Path.isAbsolute "sub" = false /\
  filter (fun e => is_fs e = true)
         (trace (Main.run Sample.yaml_parse Sample.RegExp_new Sample.relative)) =
    [existsSync "sub"; readdirSync "sub"; statSync "sub/component.yml";
     readFileSync "sub/component.yml"; statSync "sub/.component.yml"] /\
  GITHUB_WORKSPACE Sample.relative_no_workspace = None /\
  trace (Main.run Sample.yaml_parse Sample.RegExp_new Sample.relative_no_workspace) =
    [info "Finding components: foo in directories: sub";
     console_log "Component: foo, Version: latest";
     existsSync "sub"; readdirSync "sub"; statSync "sub/component.yml";
     readFileSync "sub/component.yml"; statSync "sub/.component.yml"].
Proof. by split_and!. Qed.

(** * Further properties of the two runs *)

(** ** The validation pattern and the normalized specifiers *)

Lemma nameChar_spec c :
  nameChar c =
  existsb (Ascii.eqb c)
    (list_ascii_of_string
       "abcdefghijklmnopqrstuvwxyzABCDEFGHIJKLMNOPQRSTUVWXYZ0123456789_-.").
Proof. by destruct c as [[] [] [] [] [] [] [] []]. Qed.

(** X1. The validation pattern accepts exactly a name, or a name, one colon
    and a version, where a name and a version are non-empty runs of
    letters, digits, [_], [-] and [.]. *)
Theorem validation_pattern token :
  (test validComponentRegex token = true <-> Spec.word token \/ versioned token) /\
  (forall s,
      Spec.word s <->
      s <> "" /\
      forall c, In c (list_ascii_of_string s) ->
        In c (list_ascii_of_string
                "abcdefghijklmnopqrstuvwxyzABCDEFGHIJKLMNOPQRSTUVWXYZ0123456789_-.")).
Proof.
  split; [apply valid_iff |].
  intros s. unfold Spec.word. apply and_iff_compat_l.
  induction s as [|c s IH]; simpl; [by split |].
  rewrite andb_true_iff, IH, nameChar_spec, existsb_exists. split.
  - intros [(x & Hx & E) Hs] d [<- | Hd]; [| by apply Hs].
    apply Ascii.eqb_eq in E. by subst.
  - intros H. split; [| intros d Hd; apply H; by right].
    exists c. split; [apply H; by left | apply Ascii.eqb_refl].
Qed.

Lemma word_latest : Spec.word "latest".
Proof. by split. Qed.

Lemma canonical_versioned_shape token :
  test validComponentRegex token = true -> versioned (Spec.canonical token).
Proof.
  intros V. unfold Spec.canonical, Spec.name, Spec.version.
  apply valid_iff in V as [[Hne Hw] | (n & v & -> & Hn & Hv)].
  - pose proof (word_no_colon _ Hw) as C. rewrite C, before_no_sep by done.
    exists token, "latest". split_and!; [done | done | apply word_latest].
  - pose proof (word_no_colon _ (proj2 Hn)) as C.
    rewrite contains_append, before_append, after_append by done.
    simpl. rewrite orb_true_r. by exists n, v.
Qed.

Lemma versioned_fixed c :
  versioned c -> test validComponentRegex c = true /\ Spec.canonical c = c.
Proof.
  intros (n & v & -> & Hn & Hv).
  assert (V : test validComponentRegex (n +:+ ":" +:+ v) = true)
    by (apply valid_iff; right; by exists n, v).
  split; [done |]. apply canonical_versioned; [done |].
  rewrite contains_append. simpl. apply orb_true_r.
Qed.

(** X2. The list step 1 returns holds specifiers of the form
    [name:version] only, both parts non-empty runs of the allowed
    characters; each of them passes the validation pattern and is its own
    normal form, so that step 1 run on its own result returns it
    unchanged. *)
Theorem normalized_specifiers_are_fixed (components : list string) (st : state) :
  exists newComponents,
    fst (validate components [] st) = Return newComponents /\
    Forall versioned newComponents /\
    Forall (fun c => test validComponentRegex c = true) newComponents /\
    forall st', fst (validate newComponents [] st') = Return newComponents.
Proof.
  rewrite validate_spec. eexists. split; [done |].
  set (out := map Spec.canonical _).
  assert (Hv : Forall versioned out).
  { apply Forall_map, Forall_forall. intros token H.
    apply list_elem_of_filter in H as [V _]. by apply canonical_versioned_shape. }
  split_and!; [done | |].
  - eapply Forall_impl; [exact Hv |]. intros c Hc. by apply versioned_fixed.
  - intros st'. rewrite validate_spec. simpl. f_equal.
    rewrite filter_all
      by (eapply Forall_impl; [exact Hv |]; intros c Hc; by apply versioned_fixed).
    clear -Hv. induction Hv as [|c cs Hc _ IH]; [done |].
    simpl. f_equal; [by apply versioned_fixed | done].
Qed.

(** ** How a run ends *)

Section Endings.

Variable yaml_parse : string -> outcome yaml_value.
Variable RegExp_new : string -> outcome RegExp.

#[local] Abbreviation run_of := (run_of yaml_parse RegExp_new).
#[local] Abbreviation fileNameRegex_of := (fileNameRegex_of RegExp_new).

(** A run of [src/main.ts] whose pattern does not compile. *)
Lemma Main_run_bad_pattern h e :
  reachesValidation main_ts h = true ->
  Spec.requestSet (JS.trim (INPUT h "components")) <> [] ->
  fileNameRegex_of main_ts h = Throw e ->
  Main.run yaml_parse RegExp_new h =
  with_trace (validated h (directories h)) [setFailed e].
Proof.
  unfold reachesValidation. intros Hv Hne Hr.
  apply andb_true_iff in Hv as [Hin _]. apply negb_true_iff in Hin.
  unfold Main.run, try_catch. rewrite Main_body_eq, Hin.
  destruct (Spec.requestSet _) as [|c cs]; [done |].
  simpl in Hr. by rewrite Hr.
Qed.

(** X3. Whatever the host, a run signals failure at most once, and the
    failure signal is the last thing it does: nothing is logged, warned of
    or read after [core.setFailed]. *)
Theorem failure_is_signalled_once_and_last (v : variant) (h : Host) :
  exists evs,
    Forall (fun e => is_setFailed e = false) evs /\
    (trace (run_of v h) = evs \/
     exists message, trace (run_of v h) = evs ++ [setFailed message]).
Proof.
  destruct (reachesValidation v h) eqn:Hv.
  - destruct (Spec.requestSet (JS.trim (INPUT h "components"))) as [|c cs] eqn:Hreq.
    + destruct (run_of_no_valid yaml_parse RegExp_new v h Hv Hreq) as [(evs & Ht & Hq) _].
      exists evs. split; [| right; by eexists].
      eapply Forall_impl; [exact Hq | by intros e [_ ?]].
    + assert (Hne : Spec.requestSet (JS.trim (INPUT h "components")) <> [])
        by (by rewrite Hreq).
      destruct (fileNameRegex_of v h) as [r|e] eqn:Hr.
      * destruct (run_of_visits yaml_parse RegExp_new v h r Hv Hne Hr) as (_ & _ & Ht).
        cbn zeta in Ht.
        destruct (fst (Spec.collect _ _ _ _ _)) as [[]|e].
        -- destruct Ht as (evs & Ht & Hf). exists (evs ++ notFoundWarnings
             (wanted_of v (Spec.requestSet (JS.trim (INPUT h "components"))) h)).
           split; [| by left]. apply Forall_app. split; [done |].
           unfold notFoundWarnings. by apply Forall_map, Forall_forall.
        -- destruct Ht as (evs & Ht & Hf). exists evs. split; [done |].
           right. by eexists.
      * destruct v; [| discriminate]. simpl.
        rewrite (Main_run_bad_pattern h e Hv Hne Hr).
        exists (trace (validated h (directories h))). split; [| right; by eexists].
        eapply Forall_impl; [apply quiet_validated | by intros e' [_ ?]].
  - destruct (run_of_stopped_trace yaml_parse RegExp_new v h Hv) as (message & Ht).
    exists []. split; [done |]. right. by exists message.
Qed.






End Endings.


(** ** What the scan adds to the trace, event by event *)

Lemma adds_silent {A} sel (m : M A) :
  (forall st, trace (snd (m st)) = trace st) -> adds sel m [].
Proof.
  intros H st. exists []. rewrite app_nil_r. by split_and!.
Qed.

Lemma adds_emit sel e :
  adds sel (emit e) (filter (fun e => sel e = true) [e]).
Proof. intros st. exists [e]. by split_and!. Qed.

Lemma adds_emit_other sel e : sel e = false -> adds sel (emit e) [].
Proof.
  intros H. pose proof (adds_emit sel e) as Ha.
  rewrite filter_cons, decide_False in Ha; [done | congruence].
Qed.

Lemma adds_bind {A B} sel (m : M A) (k : A -> M B) es1 es2 :
  adds sel m es1 -> (forall a, adds sel (k a) es2) ->
  adds sel (bind m k) (es1 ++ es2).
Proof.
  intros Hm Hk st. destruct (Hm st) as (evs1 & E1 & P1 & R1). unfold bind.
  destruct (m st) as [[a|e] st1]; simpl in *.
  - destruct (Hk a st1) as (evs2 & E2 & P2 & R2). exists (evs1 ++ evs2).
    rewrite E2, E1, app_assoc, filter_app, (R1 a eq_refl).
    split_and!; [done | by apply prefix_app |].
    intros b Hb. by rewrite (R2 b Hb).
  - exists evs1. split_and!; [done | by apply prefix_app_r | discriminate].
Qed.

Lemma adds_bind_nil {A B} sel (m : M A) (k : A -> M B) es :
  adds sel m [] -> (forall a, adds sel (k a) es) -> adds sel (bind m k) es.
Proof. intros Hm Hk. exact (adds_bind sel m k [] es Hm Hk). Qed.

Lemma adds_for_of {A} sel (xs : list A) (body : A -> M unit) (es : A -> list event) :
  (forall x, adds sel (body x) (es x)) ->
  adds sel (for_of xs body) (flat_map es xs).
Proof.
  intros H. induction xs as [|x xs IH]; simpl.
  - by apply adds_silent.
  - apply adds_bind; [apply H | intros _; apply IH].
Qed.

Section ScannerAdds.

Variable yaml_parse : string -> outcome yaml_value.
Variable host : Host.
Variable logChecks : bool.
Variable fileNameRegex : RegExp.
Variable wanted : list string.
(** The events selected, and what is selected of the events of one
    entry. *)
Variable sel : event -> bool.
Variable per_entry : string -> list event.

Hypothesis sel_entry : forall filePath,
  filter (fun e => sel e = true)
    (statSync filePath ::
     if logChecks then [console_log ("Checking file: " +:+ filePath)] else []) =
  per_entry filePath.
Hypothesis sel_existsSync : forall p, sel (existsSync p) = false.
Hypothesis sel_readdirSync : forall p, sel (readdirSync p) = false.
Hypothesis sel_readFileSync : forall p, sel (readFileSync p) = false.

Lemma adds_readManifest filePath content :
  adds sel (readManifest yaml_parse host wanted filePath content) [].
Proof using sel_readFileSync.
  unfold readManifest.
  apply adds_bind_nil; [by apply adds_emit_other | intros _].
  apply adds_bind_nil; [by apply adds_silent | intros doc].
  apply adds_bind_nil; [by apply adds_silent | intros component].
  apply adds_silent. intros st.
  pose proof (record_loop host (Spec.Manifest filePath content) component wanted st) as L.
  unfold Spec.absolutePath in L. simpl in L. by rewrite L.
Qed.

Lemma adds_search :
  (forall n dir,
      adds sel (searchNode yaml_parse host logChecks fileNameRegex wanted dir n)
           (flat_map per_entry (entriesNode dir n))) /\
  (forall files dir,
      adds sel (searchEntries yaml_parse host logChecks fileNameRegex wanted dir files)
           (flat_map per_entry (entriesOf dir files))).
Proof using sel_entry sel_existsSync sel_readdirSync sel_readFileSync.
  apply node_mutind.
  - intros content dir. cbn [searchNode entriesNode flat_map].
    apply adds_bind_nil; [by apply adds_emit_other | intros _].
    by apply adds_silent.
  - intros files IH dir. cbn [searchNode entriesNode].
    apply adds_bind_nil; [by apply adds_emit_other | intros _; apply IH].
  - intros dir. by apply adds_silent.
  - intros file child IHc rest IHr dir.
    cbn [entriesOf flat_map]. rewrite flat_map_app.
    rewrite <- sel_entry.
    change (statSync (Path.join dir file) ::
            (if logChecks
             then [console_log ("Checking file: " +:+ Path.join dir file)] else []))
      with ([statSync (Path.join dir file)] ++
            (if logChecks
             then [console_log ("Checking file: " +:+ Path.join dir file)] else [])).
    rewrite filter_app, <- app_assoc. cbn [searchEntries].
    apply adds_bind; [apply adds_emit | intros _].
    apply adds_bind.
    { destruct logChecks; [apply adds_emit | by apply adds_silent]. }
    intros _. apply adds_bind; [| intros _; apply IHr].
    destruct child as [content | files].
    + cbn [entriesNode flat_map].
      destruct (test fileNameRegex file); [apply adds_readManifest | by apply adds_silent].
    + apply adds_bind_nil; [by apply adds_emit_other | intros _; apply IHc].
Qed.

End ScannerAdds.

Section RootsAdd.

Variable yaml_parse : string -> outcome yaml_value.
Variable host : Host.
Variable logChecks : bool.
Variable fileNameRegex : RegExp.
Variable wanted : list string.
Variable sel : event -> bool.
Variable per_entry : string -> list event.

Hypothesis sel_entry : forall filePath,
  filter (fun e => sel e = true)
    (statSync filePath ::
     if logChecks then [console_log ("Checking file: " +:+ filePath)] else []) =
  per_entry filePath.
Hypothesis sel_existsSync : forall p, sel (existsSync p) = false.
Hypothesis sel_readdirSync : forall p, sel (readdirSync p) = false.
Hypothesis sel_readFileSync : forall p, sel (readFileSync p) = false.

Lemma adds_searchForComponent dir :
  adds sel (searchForComponent yaml_parse host logChecks fileNameRegex wanted dir)
    (filter (fun e => sel e = true)
       (if present host dir then []
        else [warning ("Directory " +:+ dir +:+ " does not exist")]) ++
     flat_map per_entry (entriesRoot host dir)).
Proof using sel_entry sel_existsSync sel_readdirSync sel_readFileSync.
  unfold searchForComponent, present, entriesRoot.
  destruct (Fs.lookup (root host) (cwd host) dir) as [n|].
  - rewrite filter_nil.
    apply adds_bind_nil; [by apply adds_emit_other | intros _].
    by apply adds_search.
  - cbn [flat_map]. rewrite app_nil_r.
    apply adds_bind_nil; [by apply adds_emit_other | intros _; apply adds_emit].
Qed.

Lemma adds_roots dirs :
  adds sel (for_of dirs (searchForComponent yaml_parse host logChecks fileNameRegex wanted))
    (flat_map
       (fun dir =>
          filter (fun e => sel e = true)
            (if present host dir then []
             else [warning ("Directory " +:+ dir +:+ " does not exist")]) ++
          flat_map per_entry (entriesRoot host dir))
       dirs).
Proof using sel_entry sel_existsSync sel_readdirSync sel_readFileSync.
  apply adds_for_of. intros dir. apply adds_searchForComponent.
Qed.

End RootsAdd.

Lemma visitsRoots_present h r dirs :
  Spec.visitsRoots h r (filter (fun dir => present h dir = true) dirs) =
  Spec.visitsRoots h r dirs.
Proof.
  induction dirs as [|dir dirs IH]; [done |].
  rewrite filter_cons. destruct (present h dir) eqn:P.
  - rewrite decide_True by done. simpl. by rewrite IH.
  - rewrite decide_False by done. rewrite IH. simpl.
    unfold present in P. unfold Spec.visitsRoot at 1.
    by destruct (Fs.lookup (root h) (cwd h) dir).
Qed.

(** ** Search roots that do not exist *)

(** X5. A search root that does not exist is skipped: from any state, the
    outcome of the scan, the mapping it builds and the files it reads are
    those of the scan of the roots that exist, in the same order. The
    warnings of a scan that returns are one [Directory ... does not exist]
    for each missing root, in order, and nothing else; those of a scan
    that throws are a beginning of that list. *)
Theorem missing_roots_are_skipped yaml_parse (h : Host) (logChecks : bool)
    (r : RegExp) (wanted dirs : list string) :
  (forall st,
      let scan := fun ds =>
        for_of ds (searchForComponent yaml_parse h logChecks r wanted) st in
      let there := filter (fun dir => present h dir = true) dirs in
      fst (scan dirs) = fst (scan there) /\
      componentMap (snd (scan dirs)) = componentMap (snd (scan there)) /\
      reads (snd (scan dirs)) = reads (snd (scan there))) /\
  adds is_warning
    (for_of dirs (searchForComponent yaml_parse h logChecks r wanted))
    (map (fun dir => warning ("Directory " +:+ dir +:+ " does not exist"))
         (filter (fun dir => present h dir = false) dirs)).
Proof.
  split.
  - intros st scan there. unfold scan, there.
    pose proof (refines_roots yaml_parse h logChecks r wanted dirs st)
      as (Ho & Hm & Hr).
    pose proof (refines_roots yaml_parse h logChecks r wanted
                  (filter (fun dir => present h dir = true) dirs) st)
      as (Ho' & Hm' & Hr').
    rewrite visitsRoots_present in Ho', Hm', Hr'.
    by rewrite Ho, Hm, Hr, Ho', Hm', Hr'.
  - pose proof (adds_roots yaml_parse h logChecks r wanted is_warning (fun _ => [])) as H.
    assert (E : flat_map
                  (fun dir =>
                     filter (fun e => is_warning e = true)
                       (if present h dir then []
                        else [warning ("Directory " +:+ dir +:+ " does not exist")]) ++
                     flat_map (fun _ : string => []) (entriesRoot h dir))
                  dirs =
                map (fun dir => warning ("Directory " +:+ dir +:+ " does not exist"))
                    (filter (fun dir => present h dir = false) dirs)).
    { clear H. induction dirs as [|dir dirs IH]; [done |].
      cbn [flat_map]. rewrite IH, filter_cons.
      assert (N : flat_map (fun _ : string => @nil event) (entriesRoot h dir) = [])
        by (induction (entriesRoot h dir); [done | by simpl]).
      rewrite N, app_nil_r. destruct (present h dir).
      - by rewrite decide_False.
      - by rewrite decide_True. }
    rewrite <- E. apply H; try done.
    intros filePath. by destruct logChecks.
Qed.

(** ** The traversal examines every entry *)

(** X6. The traversal is exhaustive and in depth-first order: from any
    state, a scan that returns has called [fs.statSync] exactly on the
    paths of all the entries below its search roots that exist, each entry
    being followed by the entries below it and the entries of a directory
    coming in listing order; a scan that throws has called it on a
    beginning of that list. The variant that logs its checks writes one
    [Checking file: ...] line for each of these calls, and the other
    variant writes no console line during the scan. *)
Theorem every_entry_is_examined yaml_parse (h : Host) (logChecks : bool)
    (r : RegExp) (wanted dirs : list string) :
  adds is_statSync
    (for_of dirs (searchForComponent yaml_parse h logChecks r wanted))
    (map statSync (flat_map (entriesRoot h) dirs)) /\
  adds is_console_log
    (for_of dirs (searchForComponent yaml_parse h logChecks r wanted))
    (if logChecks
     then map (fun filePath => console_log ("Checking file: " +:+ filePath))
              (flat_map (entriesRoot h) dirs)
     else []).
Proof.
  assert (W : forall (sel : event -> bool) (f : string -> event) dir,
             (forall m, sel (warning m) = false) ->
             filter (fun e => sel e = true)
               (if present h dir then []
                else [warning ("Directory " +:+ dir +:+ " does not exist")]) ++
             flat_map (fun p => [f p]) (entriesRoot h dir) =
             map f (entriesRoot h dir)).
  { intros sel f dir Hw.
    assert (E : filter (fun e => sel e = true)
                  (if present h dir then []
                   else [warning ("Directory " +:+ dir +:+ " does not exist")]) = []).
    { destruct (present h dir); [done |].
      rewrite filter_cons, decide_False; [done |]. by rewrite Hw. }
    rewrite E. simpl. induction (entriesRoot h dir) as [|p ps IH]; [done |].
    simpl. by rewrite IH. }
  assert (F : forall (sel : event -> bool) (f : string -> event),
             (forall m, sel (warning m) = false) ->
             flat_map
               (fun dir =>
                  filter (fun e => sel e = true)
                    (if present h dir then []
                     else [warning ("Directory " +:+ dir +:+ " does not exist")]) ++
                  flat_map (fun p => [f p]) (entriesRoot h dir))
               dirs =
             map f (flat_map (entriesRoot h) dirs)).
  { intros sel f Hw. induction dirs as [|dir dirs IH]; [done |].
    cbn [flat_map]. by rewrite IH, W, map_app. }
  split.
  - rewrite <- (F is_statSync statSync) by done.
    apply adds_roots; try done. intros filePath. by destruct logChecks.
  - destruct logChecks.
    + rewrite <- (F is_console_log
                    (fun filePath => console_log ("Checking file: " +:+ filePath)))
        by done.
      by apply adds_roots.
    + pose proof (adds_roots yaml_parse h false r wanted is_console_log (fun _ => [])) as H.
      assert (E : flat_map
                  (fun dir =>
                     filter (fun e => is_console_log e = true)
                       (if present h dir then []
                        else [warning ("Directory " +:+ dir +:+ " does not exist")]) ++
                     flat_map (fun _ : string => []) (entriesRoot h dir))
                  dirs = []).
      { clear H W F. induction dirs as [|dir dirs IH]; [done |].
        cbn [flat_map]. rewrite IH, app_nil_r.
        assert (N : flat_map (fun _ : string => @nil event) (entriesRoot h dir) = [])
          by (induction (entriesRoot h dir); [done | by simpl]).
        rewrite N, app_nil_r. destruct (present h dir); [done |].
        by rewrite filter_cons, decide_False. }
      rewrite <- E. by apply H.
Qed.

(** ** The search directories of a run *)

Lemma directories_not_nil h : directories h <> [].
Proof.
  unfold directories. intros E. apply fmap_nil_inv in E.
  by apply split_not_nil in E.
Qed.

Lemma prettyDirectories_join dirs :
  dirs <> [] -> prettyDirectories dirs = JS.join ", " dirs.
Proof. unfold prettyDirectories. by destruct dirs. Qed.

Lemma searchRoots_part_000 h repositoryPath :
  GITHUB_WORKSPACE h = Some repositoryPath ->
  searchRoots part_000 h = Part000.resolveDirectories h repositoryPath (directories h).
Proof.
  intros Hw. simpl. rewrite Hw. unfold orCwd.
  rewrite resolveDirectories_eq, length_map. unfold directories.
  by rewrite split_trim_length.
Qed.

Lemma searchRoots_not_nil v h : reachesValidation v h = true -> searchRoots v h <> [].
Proof.
  unfold reachesValidation. intros Hv. apply andb_true_iff in Hv as [_ Hw].
  destruct v.
  - simpl. rewrite directories_not_defaulted. apply directories_not_nil.
  - apply bool_decide_eq_true in Hw as [repositoryPath Hw].
    rewrite (searchRoots_part_000 h repositoryPath Hw), resolveDirectories_eq.
    intros E. apply fmap_nil_inv in E. by apply directories_not_nil in E.
Qed.

Section Roots.

Variable yaml_parse : string -> outcome yaml_value.
Variable RegExp_new : string -> outcome RegExp.

#[local] Abbreviation run_of := (run_of yaml_parse RegExp_new).
#[local] Abbreviation fileNameRegex_of := (fileNameRegex_of RegExp_new).

(** A run ends before the scan, in a state that differs from the initial
    one by its trace only, or gets to the scan. *)
Lemma run_of_cases v h :
  (exists evs, run_of v h = with_trace initial evs) \/
  (exists r,
      reachesValidation v h = true /\
      Spec.requestSet (JS.trim (INPUT h "components")) <> [] /\
      fileNameRegex_of v h = Return r).
Proof.
  unfold reachesValidation. destruct v; simpl.
  - unfold Main.run, try_catch. rewrite Main_body_eq.
    destruct (String.eqb (INPUT h "components") ""); [left; by eexists |].
    destruct (Spec.requestSet _) as [|c cs].
    { left. unfold validated. rewrite with_trace_app. by eexists. }
    destruct (RegExp_new _) as [r|e]; [right; by exists r |].
    left. unfold catch. rewrite emit_eq. cbn [snd]. unfold validated.
    rewrite with_trace_app. by eexists.
  - unfold Part000.run, try_catch. rewrite Part000_body_eq.
    destruct (String.eqb (INPUT h "components") ""); [left; by eexists |].
    destruct (GITHUB_WORKSPACE h) as [repositoryPath|]; [| left; by eexists].
    cbn zeta. destruct (Spec.requestSet _) as [|c cs].
    { left. unfold validated. rewrite with_trace_app. by eexists. }
    right. eexists. by split_and!.
Qed.

(** The state a run is in when the scan starts. *)
Lemma run_of_from_validated v h r :
  reachesValidation v h = true ->
  Spec.requestSet (JS.trim (INPUT h "components")) <> [] ->
  fileNameRegex_of v h = Return r ->
  run_of v h =
  catch (scanAndReport yaml_parse v h r
           (Spec.requestSet (JS.trim (INPUT h "components")))
           (validated h (searchRoots v h))).
Proof.
  unfold reachesValidation. intros Hv Hne Hr.
  apply andb_true_iff in Hv as [Hin Hw]. apply negb_true_iff in Hin.
  destruct v.
  - simpl in Hr. unfold searchRoots at 1. rewrite directories_not_defaulted.
    simpl. unfold Main.run, try_catch. rewrite Main_body_eq, Hin.
    unfold scanAndReport. simpl.
    destruct (Spec.requestSet _) as [|c cs]; [done |]. by rewrite Hr.
  - apply bool_decide_eq_true in Hw as [repositoryPath Hw].
    rewrite (searchRoots_part_000 h repositoryPath Hw).
    simpl. unfold Part000.run, try_catch. rewrite Part000_body_eq, Hin.
    unfold scanAndReport, searchRoots. rewrite Hw. cbn zeta.
    destruct (Spec.requestSet _) as [|c cs]; [done |]. by injection Hr as <-.
Qed.

(** A run that gets past its early exits starts with step 1. *)
Lemma run_of_opens v h :
  reachesValidation v h = true ->
  exists evs, trace (run_of v h) = trace (validated h (searchRoots v h)) ++ evs.
Proof.
  intros Hv.
  destruct (Spec.requestSet (JS.trim (INPUT h "components"))) as [|c cs] eqn:Hreq.
  - pose proof Hv as Hv'. unfold reachesValidation in Hv'.
    apply andb_true_iff in Hv' as [Hin Hw]. apply negb_true_iff in Hin.
    destruct v.
    + simpl. rewrite directories_not_defaulted.
      unfold Main.run, try_catch. rewrite Main_body_eq, Hin, Hreq. by eexists.
    + apply bool_decide_eq_true in Hw as [repositoryPath Hw].
      rewrite (searchRoots_part_000 h repositoryPath Hw). simpl.
      unfold Part000.run, try_catch. rewrite Part000_body_eq, Hin, Hw. cbn zeta.
      rewrite Hreq. by eexists.
  - assert (Hne : Spec.requestSet (JS.trim (INPUT h "components")) <> [])
      by (by rewrite Hreq).
    destruct (fileNameRegex_of v h) as [r|e] eqn:Hr.
    + rewrite (run_of_from_validated v h r Hv Hne Hr).
      apply catch_extends, emits_scanAndReport.
    + destruct v; [| discriminate]. simpl.
      rewrite (Main_run_bad_pattern yaml_parse RegExp_new h e Hv Hne Hr).
      rewrite directories_not_defaulted. by eexists.
Qed.

(** X7. The list of search directories is never empty, because splitting
    on a comma never yields an empty list: the fall-back on
    [process.cwd()] is never taken and the text [all directories] is never
    announced. The directories scanned are the supplied ones in
    [src/main.ts] and, in the sibling variant, the supplied ones with each
    relative one resolved against the repository root; a run that gets
    past its early exits opens with the announcement of the trimmed
    tokens and of these directories. *)
Theorem cwd_default_is_never_used (h : Host) :
  directories h <> [] /\
  searchRoots main_ts h = directories h /\
  (forall repositoryPath,
      GITHUB_WORKSPACE h = Some repositoryPath ->
      searchRoots part_000 h =
      map (fun dir => if Path.isAbsolute dir then dir
                      else Path.resolve (cwd h) [repositoryPath; dir])
          (directories h)) /\
  (forall v,
      reachesValidation v h = true ->
      exists evs,
        trace (run_of v h) =
        info ("Finding components: " +:+ JS.join ", " (tokens h) +:+
              " in directories: " +:+ JS.join ", " (searchRoots v h)) :: evs).
Proof.
  split_and!.
  - apply directories_not_nil.
  - apply directories_not_defaulted.
  - intros repositoryPath Hw.
    by rewrite (searchRoots_part_000 h repositoryPath Hw), resolveDirectories_eq.
  - intros v Hv.
    rewrite <- (prettyDirectories_join (searchRoots v h)) by (by apply searchRoots_not_nil).
    destruct (run_of_opens v h Hv) as (evs & ->). by eexists.
Qed.

(** X8. When no search directory is supplied, the one search directory is
    the empty text. [src/main.ts] hands it to the scanner as it is: the
    directory is reported as not existing and nothing is scanned, so the
    mapping is empty and the run ends with the warnings of its last loop.
    The sibling variant resolves it against the repository root and scans
    the repository root. Neither scans [process.cwd()] for that reason. *)
Theorem no_search_directory_given (h : Host) :
  JS.trim (INPUT h "component-search-directories") = "" ->
  searchRoots main_ts h = [""] /\
  (forall repositoryPath,
      GITHUB_WORKSPACE h = Some repositoryPath ->
      searchRoots part_000 h = [Path.resolve (cwd h) [repositoryPath]]) /\
  (forall r,
      reachesValidation main_ts h = true ->
      Spec.requestSet (JS.trim (INPUT h "components")) <> [] ->
      fileNameRegex_of main_ts h = Return r ->
      Main.run yaml_parse RegExp_new h =
      with_trace (validated h [""])
        ([existsSync ""; warning "Directory  does not exist"] ++
         notFoundWarnings (tokens h))).
Proof.
  intros Hd.
  assert (D : directories h = [""]) by (unfold directories; by rewrite Hd).
  assert (R : searchRoots main_ts h = [""])
    by (simpl; by rewrite directories_not_defaulted).
  split_and!; [done | |].
  - intros repositoryPath Hw.
    by rewrite (searchRoots_part_000 h repositoryPath Hw), resolveDirectories_eq, D.
  - intros r Hv Hne Hr.
    pose proof (run_of_from_validated main_ts h r Hv Hne Hr) as E.
    change (Main.run yaml_parse RegExp_new h) with (run_of main_ts h).
    rewrite E. unfold scanAndReport.
    change (wanted_of main_ts _ h) with (tokens h). rewrite R.
    cbn [for_of logChecks_of]. unfold searchForComponent at 1.
    change (Fs.lookup (root h) (cwd h) "") with (@None node). cbv iota.
    unfold bind at 1 2 3. rewrite !emit_eq. unfold ret.
    rewrite warnNotFound_eq. simpl. by rewrite !with_trace_app.
Qed.

(** X9. In [src/main.ts], when [new RegExp] rejects the pattern text, the
    run fails with the message of that error right after step 1: its
    trace is the announcement, the diagnostics of the tokens and the
    failure signal, no file-system call is made and the mapping is empty.
    The pattern text is the [component-file-name-regex] input, trimmed,
    and the source of the built-in pattern when that is empty. *)
Theorem invalid_pattern_fails_before_scan (h : Host) (e : string) :
  reachesValidation main_ts h = true ->
  Spec.requestSet (JS.trim (INPUT h "components")) <> [] ->
  RegExp_new (Main.patternText (JS.trim (INPUT h "component-file-name-regex")))
    = Throw e ->
  trace (Main.run yaml_parse RegExp_new h) =
    announcement (tokens h) (directories h) ::
    map Spec.diagnostic (tokens h) ++ [setFailed e] /\
  Forall (fun ev => is_fs ev = false) (trace (Main.run yaml_parse RegExp_new h)) /\
  componentMap (Main.run yaml_parse RegExp_new h) = ∅ /\
  (forall configured,
      Main.patternText configured =
      if String.eqb configured "" then "^component\.ya?ml$" else configured).
Proof.
  intros Hv Hne Hr. rewrite (Main_run_bad_pattern yaml_parse RegExp_new h e Hv Hne Hr).
  split_and!; [done | | done | done].
  simpl. constructor; [done |]. apply Forall_app. split; [| by constructor].
  eapply Forall_impl; [apply quiet_diagnostics | by intros ev [? _]].
Qed.

End Roots.

Lemma no_search_directory_given_witness :
  searchRoots main_ts Sample.no_directories = [""] /\
  searchRoots part_000 Sample.no_directories = ["/repo"] /\
  trace (Main.run Sample.yaml_parse Sample.RegExp_new Sample.no_directories) =
    [info "Finding components: foo in directories: ";
     console_log "Component: foo, Version: latest";
     existsSync ""; warning "Directory  does not exist"].
Proof.
  destruct (no_search_directory_given Sample.yaml_parse Sample.RegExp_new
              Sample.no_directories eq_refl) as (H1 & H2 & H3).
  split; [exact H1 |]. split; [exact (H2 "/repo" eq_refl) |].
  rewrite (H3 componentFileNameRegex_plain); [reflexivity | reflexivity | | reflexivity].
  discriminate.
Defined.

Lemma invalid_pattern_fails_before_scan_witness :
  trace (Main.run Sample.yaml_parse Sample.RegExp_new Sample.bad_pattern) =
    [info "Finding components: foo in directories: /repo";
     console_log "Component: foo, Version: latest";
     setFailed "Invalid regular expression"].
Proof.
  apply (invalid_pattern_fails_before_scan Sample.yaml_parse Sample.RegExp_new
           Sample.bad_pattern "Invalid regular expression");
    [reflexivity | discriminate | reflexivity].
Defined.

(** ** The bookkeeping of the scan *)

Lemma found_in_order_same wanted st st' :
  componentMap st' = componentMap st ->
  foundComponents st' = foundComponents st ->
  found_in_order wanted st -> found_in_order wanted st'.
Proof. unfold found_in_order. by intros -> ->. Qed.

Lemma found_in_order_with_trace wanted st evs :
  found_in_order wanted st -> found_in_order wanted (with_trace st evs).
Proof. by apply found_in_order_same. Qed.

Lemma preserves_same {A} wanted (m : M A) :
  (forall st, componentMap (snd (m st)) = componentMap st /\
              foundComponents (snd (m st)) = foundComponents st) ->
  preserves (found_in_order wanted) m.
Proof. intros H st. destruct (H st). by apply found_in_order_same. Qed.

Lemma preserves_bind {A B} (I : state -> Prop) (m : M A) (k : A -> M B) :
  preserves I m -> (forall a, preserves I (k a)) -> preserves I (bind m k).
Proof.
  intros Hm Hk st Hst. specialize (Hm st Hst). unfold bind.
  destruct (m st) as [[a|e] st1]; [by apply Hk | done].
Qed.

Lemma preserves_for_of {A} (I : state -> Prop) (xs : list A) (body : A -> M unit) :
  (forall x, x ∈ xs -> preserves I (body x)) -> preserves I (for_of xs body).
Proof.
  induction xs as [|x xs IH]; intros H; simpl; [by intros st |].
  apply preserves_bind.
  - apply H, elem_of_cons. by left.
  - intros _. apply IH. intros y Hy. apply H, elem_of_cons. by right.
Qed.

Lemma preserves_record_match wanted key value component :
  key ∈ wanted ->
  strict_equal (JS.head_of_split ":" key) component = true ->
  preserves (found_in_order wanted) (record_match key value component).
Proof.
  intros Hk Hs st [Hmap Hfound]. apply strict_equal_iff in Hs. split; simpl.
  - intros k v. rewrite lookup_set_property.
    destruct (decide (key = k /\ key <> "__proto__")) as [[<- _] | _].
    + intros _. apply elem_of_app. right. rewrite Hs. by apply list_elem_of_singleton.
    + intros H. apply elem_of_app. left. by eapply Hmap.
  - intros c Hc. apply elem_of_app in Hc as [Hc | Hc]; [by apply Hfound |].
    apply list_elem_of_singleton in Hc as ->. by exists key.
Qed.

Section ScannerBookkeeping.

Variable yaml_parse : string -> outcome yaml_value.
Variable host : Host.
Variable logChecks : bool.
Variable fileNameRegex : RegExp.
Variable wanted : list string.

#[local] Abbreviation kept := (preserves (found_in_order wanted)).

Lemma preserves_emit e : kept (emit e).
Proof. by apply preserves_same. Qed.

Lemma preserves_readManifest filePath content :
  kept (readManifest yaml_parse host wanted filePath content).
Proof.
  unfold readManifest.
  apply preserves_bind; [apply preserves_emit | intros _].
  apply preserves_bind; [by apply preserves_same | intros doc].
  apply preserves_bind; [by apply preserves_same | intros component].
  apply preserves_for_of. intros key Hk.
  destruct (strict_equal _ _) eqn:E;
    [by apply preserves_record_match | by apply preserves_same].
Qed.

Lemma preserves_search :
  (forall n dir,
      kept (searchNode yaml_parse host logChecks fileNameRegex wanted dir n)) /\
  (forall files dir,
      kept (searchEntries yaml_parse host logChecks fileNameRegex wanted dir files)).
Proof.
  apply node_mutind.
  - intros content dir. cbn [searchNode].
    apply preserves_bind; [apply preserves_emit | intros _; by apply preserves_same].
  - intros files IH dir. cbn [searchNode].
    apply preserves_bind; [apply preserves_emit | intros _; apply IH].
  - intros dir. by apply preserves_same.
  - intros file child IHc rest IHr dir. cbn [searchEntries].
    apply preserves_bind; [apply preserves_emit | intros _].
    apply preserves_bind.
    { destruct logChecks; [apply preserves_emit | by apply preserves_same]. }
    intros _. apply preserves_bind; [| intros _; apply IHr].
    destruct child as [content | files].
    + destruct (test fileNameRegex file);
        [apply preserves_readManifest | by apply preserves_same].
    + apply preserves_bind; [apply preserves_emit | intros _; apply IHc].
Qed.

Lemma preserves_searchForComponent dir :
  kept (searchForComponent yaml_parse host logChecks fileNameRegex wanted dir).
Proof.
  unfold searchForComponent.
  apply preserves_bind; [apply preserves_emit | intros _].
  destruct (Fs.lookup _ _ _); [apply preserves_search | apply preserves_emit].
Qed.

Lemma preserves_roots dirs :
  kept (for_of dirs (searchForComponent yaml_parse host logChecks fileNameRegex wanted)).
Proof. apply preserves_for_of. intros dir _. apply preserves_searchForComponent. Qed.

End ScannerBookkeeping.

(** X10. [foundComponents] and the mapping agree, at every step of the
    scan and when the run ends, whatever the host and the outcome: the
    name of every key of the mapping has been pushed on [foundComponents],
    and every element of [foundComponents] is the name of an element of
    the list the scanner consults. Each operation of the scanner keeps
    this from any state. *)
Theorem found_components_cover_the_mapping yaml_parse RegExp_new
    (v : variant) (h : Host) :
  found_in_order (wanted_of v (Spec.requestSet (JS.trim (INPUT h "components"))) h)
    (run_of yaml_parse RegExp_new v h) /\
  (forall logChecks r wanted dirs,
      preserves (found_in_order wanted)
        (for_of dirs (searchForComponent yaml_parse h logChecks r wanted))) /\
  (forall wanted filePath content,
      preserves (found_in_order wanted)
        (readManifest yaml_parse h wanted filePath content)).
Proof.
  split_and!; [| intros; apply preserves_roots | intros; apply preserves_readManifest].
  assert (I0 : forall wanted, found_in_order wanted initial).
  { intros wanted. split; simpl.
    - intros key value H. by rewrite lookup_empty in H.
    - intros c H. by apply elem_of_nil in H. }
  destruct (run_of_cases yaml_parse RegExp_new v h) as [[evs ->] | (r & Hv & Hne & Hr)].
  { by apply found_in_order_with_trace. }
  rewrite (run_of_from_validated yaml_parse RegExp_new v h r Hv Hne Hr).
  set (wanted := wanted_of v _ h).
  assert (K : found_in_order wanted
                (snd (scanAndReport yaml_parse v h r
                        (Spec.requestSet (JS.trim (INPUT h "components")))
                        (validated h (searchRoots v h))))).
  { unfold scanAndReport. fold wanted. apply preserves_bind.
    - apply preserves_roots.
    - intros _. apply preserves_same. intros st. by rewrite warnNotFound_eq.
    - by apply found_in_order_with_trace. }
  unfold catch. destruct (scanAndReport _ _ _ _ _ _) as [[[]|e] st]; [done |].
  simpl in K. rewrite emit_eq. by apply found_in_order_with_trace.
Qed.

(** ** The domain and the values of the mapping *)

Section MappingOfARun.

Variable yaml_parse : string -> outcome yaml_value.
Variable RegExp_new : string -> outcome RegExp.

#[local] Abbreviation run_of := (run_of yaml_parse RegExp_new).
#[local] Abbreviation fileNameRegex_of := (fileNameRegex_of RegExp_new).
#[local] Abbreviation declares := (Spec.declares yaml_parse).
#[local] Abbreviation usable := (usable yaml_parse).

Lemma collect_proto host wanted vs : forall m,
  snd (Spec.collect yaml_parse host wanted vs m) !! "__proto__" = m !! "__proto__".
Proof.
  induction vs as [|u vs IH]; intros m; simpl; [done |].
  destruct (Spec.declared yaml_parse u) as [component|e]; [| done].
  rewrite IH, assign_lookup, decide_False; [done | tauto].
Qed.

Lemma collect_some host wanted vs key : forall m,
  key ∈ wanted -> key <> "__proto__" ->
  Forall usable vs ->
  is_Some (m !! key) \/ (exists u, u ∈ vs /\ declares u (Spec.before ":" key)) ->
  is_Some (snd (Spec.collect yaml_parse host wanted vs m) !! key).
Proof.
  induction vs as [|u vs IH]; intros m Hk Hp Hu H; simpl.
  - destruct H as [H | (u & Hin & _)]; [done | by apply elem_of_nil in Hin].
  - apply Forall_cons in Hu as [[component Hc] Hu]. rewrite Hc.
    apply IH; [done | done | done |]. rewrite assign_lookup.
    destruct (decide _) as [_ | N]; [left; by eexists |].
    destruct H as [H | (u' & Hin & Hd)]; [by left |].
    apply elem_of_cons in Hin as [-> | Hin]; [| right; by exists u'].
    destruct N. split_and!; [done | | done].
    unfold Spec.declares in Hd. rewrite Hc in Hd. injection Hd as ->.
    apply strict_equal_iff. by rewrite split_head.
Qed.

(** X11. Last write wins, in both variants: when everything the traversal
    meets can be used, a key of the list the scanner consults, other than
    [__proto__], holds the resolved path of the last manifest, in
    depth-first order, that declares the name of the key. *)
Theorem last_declaring_manifest_wins (v : variant) (h : Host) (r : RegExp)
    (vs1 : list Spec.visit) (m : Spec.visit) (vs2 : list Spec.visit) (key : string) :
  reachesValidation v h = true ->
  Spec.requestSet (JS.trim (INPUT h "components")) <> [] ->
  fileNameRegex_of v h = Return r ->
  Spec.visitsRoots h r (searchRoots v h) = vs1 ++ m :: vs2 ->
  Forall usable (vs1 ++ m :: vs2) ->
  key ∈ wanted_of v (Spec.requestSet (JS.trim (INPUT h "components"))) h ->
  key <> "__proto__" ->
  declares m (Spec.before ":" key) ->
  Forall (fun m' => ~ declares m' (Spec.before ":" key)) vs2 ->
  componentMap (run_of v h) !! key = Some (Path.resolve (cwd h) [Spec.place m]).
Proof.
  intros Hv Hne Hr Hvs Hu Hk Hp Hm Hvs2.
  destruct (run_of_visits yaml_parse RegExp_new v h r Hv Hne Hr) as (-> & _ & _).
  rewrite Hvs. set (wanted := wanted_of v _ h) in *.
  pose proof (collect_usable yaml_parse h wanted (vs1 ++ m :: vs2) ∅ Hu) as Hc.
  destruct (Spec.collect yaml_parse h wanted (vs1 ++ m :: vs2) ∅) as [o m'] eqn:E.
  simpl in Hc. subst o. simpl.
  rewrite <- split_head in Hm.
  eapply collect_last; [exact E | done | done | exact Hm |].
  eapply Forall_impl; [exact Hvs2 |]. intros m0 H. by rewrite split_head.
Qed.

(** X12. The domain of the mapping, in both variants. Whatever the outcome
    of the run, a key of the mapping is an element of the list the scanner
    consults, is not [__proto__], and has its name declared by a manifest
    met by the traversal; so a specifier whose name no such manifest
    declares has no entry. When everything the traversal meets can be
    used, every such key is in the mapping. *)
Theorem mapping_domain (v : variant) (h : Host) (r : RegExp) (key : string) :
  reachesValidation v h = true ->
  Spec.requestSet (JS.trim (INPUT h "components")) <> [] ->
  fileNameRegex_of v h = Return r ->
  let wanted := wanted_of v (Spec.requestSet (JS.trim (INPUT h "components"))) h in
  let vs := Spec.visitsRoots h r (searchRoots v h) in
  (is_Some (componentMap (run_of v h) !! key) ->
   key ∈ wanted /\ key <> "__proto__" /\
   exists m, m ∈ vs /\ declares m (Spec.before ":" key)) /\
  (Forall usable vs ->
   key ∈ wanted -> key <> "__proto__" ->
   (exists m, m ∈ vs /\ declares m (Spec.before ":" key)) ->
   is_Some (componentMap (run_of v h) !! key)).
Proof.
  intros Hv Hne Hr wanted vs.
  destruct (run_of_visits yaml_parse RegExp_new v h r Hv Hne Hr) as (-> & _ & _).
  fold wanted vs. split.
  - intros [value H].
    pose proof (justified_collect yaml_parse h wanted vs vs ∅
                  (reflexivity vs) (justified_empty yaml_parse h wanted vs)
                  key value H) as (Hk & filePath & content & Hin & _ & Hd).
    split_and!; [done | | by eexists].
    intros ->. by rewrite collect_proto, lookup_empty in H.
  - intros Hu Hk Hp Hd. apply collect_some; [done | done | done | by right].
Qed.

End MappingOfARun.

Lemma last_declaring_manifest_wins_witness :
  componentMap (run_of Sample.yaml_parse Sample.RegExp_new part_000 Sample.two_foo)
    !! "foo:latest" = Some "/repo/b/.component.yaml".
Proof.
  apply (last_declaring_manifest_wins Sample.yaml_parse Sample.RegExp_new
           part_000 Sample.two_foo componentFileNameRegex_hidden
           [Spec.Manifest "/repo/a/.component.yml" "component: foo"]
           (Spec.Manifest "/repo/b/.component.yaml" "component: foo") []
           "foo:latest").
  - reflexivity.
  - discriminate.
  - reflexivity.
  - reflexivity.
  - repeat constructor; eexists; reflexivity.
  - repeat constructor.
  - discriminate.
  - reflexivity.
  - constructor.
Defined.

Lemma mapping_domain_witness :
  is_Some (componentMap
             (run_of Sample.yaml_parse Sample.RegExp_new main_ts Sample.found_foo)
             !! "foo").
Proof.
  destruct (mapping_domain Sample.yaml_parse Sample.RegExp_new main_ts
              Sample.found_foo componentFileNameRegex_plain "foo")
    as [_ H]; [reflexivity | discriminate | reflexivity |].
  apply H.
  - repeat constructor. eexists. reflexivity.
  - repeat constructor.
  - discriminate.
  - exists (Spec.Manifest "/repo/component.yml" "component: foo").
    split; [repeat constructor | reflexivity].
Defined.

(** ** The phases of a run *)

(** X13. The trace of a run that reaches the scanner has three parts, in
    this order: the announcement followed by one diagnostic per token
    (step 1 is over before the first file-system call, and a token that
    fails the pattern costs an error line, not the run); the events of the
    scan, which are file-system calls, console lines and warnings only;
    and either the warnings of the last loop or, when the scan threw, the
    one failure signal. *)
Theorem phases_of_a_run yaml_parse RegExp_new (v : variant) (h : Host) (r : RegExp) :
  reachesValidation v h = true ->
  Spec.requestSet (JS.trim (INPUT h "components")) <> [] ->
  fileNameRegex_of RegExp_new v h = Return r ->
  exists evs ending,
    trace (run_of yaml_parse RegExp_new v h) =
      announcement (tokens h) (searchRoots v h) ::
      map Spec.diagnostic (tokens h) ++ evs ++ ending /\
    Forall (scan_event false) evs /\
    (ending =
       notFoundWarnings
         (wanted_of v (Spec.requestSet (JS.trim (INPUT h "components"))) h) \/
     exists message, ending = [setFailed message]).
Proof.
  intros Hv Hne Hr.
  rewrite (run_of_from_validated yaml_parse RegExp_new v h r Hv Hne Hr).
  unfold scanAndReport. set (wanted := wanted_of v _ h).
  pose proof (emits_roots yaml_parse h (logChecks_of v) r wanted false (searchRoots v h))
    as He.
  destruct (He ltac:(discriminate) (validated h (searchRoots v h))) as (evs & Et & Fe).
  unfold bind.
  destruct (for_of (searchRoots v h) _ (validated h (searchRoots v h)))
    as [[[]|e] st1]; simpl in Et.
  - exists evs, (notFoundWarnings wanted). rewrite warnNotFound_eq. simpl.
    rewrite Et, <- app_comm_cons, <- app_assoc.
    split_and!; [done | done | by left].
  - exists evs, [setFailed e]. simpl. rewrite Et, <- app_comm_cons, <- app_assoc.
    split_and!; [done | done | right; by eexists].
Qed.

Lemma phases_of_a_run_witness :
  exists evs ending,
    trace (run_of Sample.yaml_parse Sample.RegExp_new main_ts Sample.missing_root) =
      announcement (tokens Sample.missing_root)
        (searchRoots main_ts Sample.missing_root) ::
      map Spec.diagnostic (tokens Sample.missing_root) ++ evs ++ ending /\
    Forall (scan_event false) evs /\
    (ending =
       notFoundWarnings
         (wanted_of main_ts
            (Spec.requestSet (JS.trim (INPUT Sample.missing_root "components")))
            Sample.missing_root) \/
     exists message, ending = [setFailed message]).
Proof.
  apply (phases_of_a_run Sample.yaml_parse Sample.RegExp_new main_ts
           Sample.missing_root componentFileNameRegex_plain);
    [reflexivity | discriminate | reflexivity].
Defined.

(** ** The tokens of the inputs *)








(** ** What matching looks at *)

Lemma collect_same_name yaml_parse host wanted vs key1 key2 : forall m,
  key1 ∈ wanted -> key2 ∈ wanted ->
  key1 <> "__proto__" -> key2 <> "__proto__" ->
  Spec.before ":" key1 = Spec.before ":" key2 ->
  m !! key1 = m !! key2 ->
  snd (Spec.collect yaml_parse host wanted vs m) !! key1 =
  snd (Spec.collect yaml_parse host wanted vs m) !! key2.
Proof.
  induction vs as [|u vs IH]; intros m H1 H2 P1 P2 E Hm; simpl; [done |].
  destruct (Spec.declared yaml_parse u) as [component|e]; [| done].
  apply IH; try done. rewrite !assign_lookup, !split_head, E.
  destruct (decide (key1 ∈ wanted /\ _)) as [(_ & S & _) | N1].
  - by rewrite decide_True.
  - rewrite decide_False; [done |]. intros (_ & S & _). by destruct N1.
Qed.

(** X15. The version of a specifier plays no role in the matching: when a
    run ends, whatever the host and the outcome, two keys of the list the
    scanner consults that have the same name (the text before the first
    colon) are both absent from the mapping or both mapped to the same
    path ([__proto__], which is never stored, apart). *)
Theorem version_plays_no_role yaml_parse RegExp_new (v : variant) (h : Host)
    (key1 key2 : string) :
  key1 ∈ wanted_of v (Spec.requestSet (JS.trim (INPUT h "components"))) h ->
  key2 ∈ wanted_of v (Spec.requestSet (JS.trim (INPUT h "components"))) h ->
  key1 <> "__proto__" -> key2 <> "__proto__" ->
  Spec.before ":" key1 = Spec.before ":" key2 ->
  componentMap (run_of yaml_parse RegExp_new v h) !! key1 =
  componentMap (run_of yaml_parse RegExp_new v h) !! key2.
Proof.
  intros H1 H2 P1 P2 E.
  destruct (run_of_cases yaml_parse RegExp_new v h) as [[evs ->] | (r & Hv & Hne & Hr)].
  { simpl. by rewrite !lookup_empty. }
  destruct (run_of_visits yaml_parse RegExp_new v h r Hv Hne Hr) as (-> & _ & _).
  by apply collect_same_name.
Qed.

Lemma version_plays_no_role_witness :
  componentMap (run_of Sample.yaml_parse Sample.RegExp_new part_000 Sample.two_versions)
    !! "foo:1" =
  componentMap (run_of Sample.yaml_parse Sample.RegExp_new part_000 Sample.two_versions)
    !! "foo:2".
Proof.
  apply (version_plays_no_role Sample.yaml_parse Sample.RegExp_new part_000
           Sample.two_versions "foo:1" "foo:2").
  - repeat constructor.
  - repeat constructor.
  - discriminate.
  - discriminate.
  - reflexivity.
Defined.

Lemma for_of_no_match key_value component (ws : list string) st :
  Forall (fun key => strict_equal (JS.head_of_split ":" key) component = false) ws ->
  for_of ws (fun neededComponent =>
    if strict_equal (JS.head_of_split ":" neededComponent) component then
      record_match neededComponent key_value component
    else ret tt) st = (Return tt, st).
Proof.
  induction 1 as [|w ws Hw _ IH]; [done |].
  cbn [for_of]. unfold bind. by rewrite Hw.
Qed.

(** X16. A manifest that names nothing requested is read and otherwise
    ignored: when the document parses, is not [null], and its [component]
    field is missing, is not a string, or is a string that is the name of
    no element of the list the scanner consults, reading the manifest
    returns without an error and changes neither the mapping nor
    [foundComponents]; the one event is the read of the file. *)
Theorem manifest_naming_nothing_requested_is_ignored yaml_parse (h : Host)
    (wanted : list string) (filePath content : string) (doc : yaml_value)
    (st : state) :
  yaml_parse content = Return doc ->
  doc <> YNull ->
  (forall key, key ∈ wanted ->
     get_component doc <> Return (Some (YString (Spec.before ":" key)))) ->
  readManifest yaml_parse h wanted filePath content st =
  (Return tt, with_trace st [readFileSync filePath]).
Proof.
  intros Hp Hn Hk. unfold readManifest.
  rewrite bind_emit, bind_lift, Hp, bind_lift.
  destruct (get_component doc) as [component|e] eqn:G; [| by destruct doc].
  apply for_of_no_match. apply Forall_forall. intros key Hin.
  destruct (strict_equal _ _) eqn:S; [| done].
  apply strict_equal_iff in S. rewrite split_head in S. subst component.
  by destruct (Hk key Hin).
Qed.

Lemma manifest_naming_nothing_requested_is_ignored_witness :
  readManifest Sample.yaml_parse Sample.no_field ["foo:latest"]
    "/repo/.component.yml" "name: foo" initial =
  (Return tt, with_trace initial [readFileSync "/repo/.component.yml"]).
Proof.
  apply (manifest_naming_nothing_requested_is_ignored Sample.yaml_parse
           Sample.no_field ["foo:latest"] "/repo/.component.yml" "name: foo"
           (YMap [("name", YString "foo")]) initial).
  - reflexivity.
  - discriminate.
  - intros key _. discriminate.
Defined.
